(** * FinancialDataGenerator: generation and persistence pipeline

    A shallow embedding of [src/generate_financial_data.py].  The program
    talks to three things that live outside the repository: the process
    environment, a remote text model, and a PostgreSQL server reached
    through psycopg2.  Each of them is represented explicitly:

    - values decoded from the model replies are Python values ([value]);
    - the program runs in a monad [M] that threads a [world] (committed
      tables, sequence counters, the open connection, the trace of calls
      made so far) and propagates Python exceptions;
    - the remote model, the JSON decoder and server-side failures are
      oracles, bound as section variables, so that every theorem holds for
      all of their behaviours. *)

From Stdlib Require Import String Ascii List ZArith Bool Lia QArith DecimalString.
Import ListNotations.
Local Open Scope string_scope.
Local Open Scope list_scope.
Local Close Scope Q_scope.
Set Warnings "-register-all".

(** ** Python values, exceptions and results *)

(** What [json.loads] can return.  A float is carried by its printed
    form: the program never computes with one. *)
Inductive value : Type :=
| PyNone
| PyBool (b : bool)
| PyInt (n : Z)
| PyFloat (repr : string)
| PyStr (s : string)
| PyList (items : list value)
| PyDict (fields : list (string * value)).

Inductive exn : Type :=
| KeyError (key : string)
| TypeError
| IndexError
| JSONDecodeError
| APIError
| OperationalError
| ProgrammingError
| IntegrityError
| InterfaceError.

Inductive outcome (A : Type) : Type :=
| Ok (a : A)
| Raise (e : exn).
Arguments Ok {A} a.
Arguments Raise {A} e.

Definition obind {A B : Type} (o : outcome A) (k : A -> outcome B) : outcome B :=
  match o with
  | Ok a => k a
  | Raise e => Raise e
  end.

Fixpoint omap {A B : Type} (f : A -> outcome B) (l : list A) : outcome (list B) :=
  match l with
  | [] => Ok []
  | x :: rest =>
      obind (f x) (fun y => obind (omap f rest) (fun ys => Ok (y :: ys)))
  end.

(** Association lists, looked up by their first matching key: Python dicts
    with string keys (in insertion order, which [for] loops see), the table
    catalog and the sequence counters. *)
Fixpoint assoc {A : Type} (k : string) (l : list (string * A)) : option A :=
  match l with
  | [] => None
  | (k', v) :: rest => if String.eqb k k' then Some v else assoc k rest
  end.

Fixpoint assoc_set {A : Type} (k : string) (v : A) (l : list (string * A))
  : list (string * A) :=
  match l with
  | [] => [(k, v)]
  | (k', v') :: rest =>
      if String.eqb k k' then (k, v) :: rest else (k', v') :: assoc_set k v rest
  end.

(** [v[key]] for a string key. *)
Definition subscript (v : value) (key : string) : outcome value :=
  match v with
  | PyDict fields =>
      match assoc key fields with
      | Some x => Ok x
      | None => Raise (KeyError key)
      end
  | _ => Raise TypeError
  end.

(** [row[i]] on a tuple. *)
Definition tuple_get (row : list value) (i : nat) : outcome value :=
  match nth_error row i with
  | Some x => Ok x
  | None => Raise IndexError
  end.

(** The items a [for] loop (or [list.extend]) draws from a value: the
    elements of a list, the keys of a dict, the characters of a string. *)
Definition iterate (v : value) : outcome (list value) :=
  match v with
  | PyList items => Ok items
  | PyDict fields => Ok (map (fun kv => PyStr (fst kv)) fields)
  | PyStr s => Ok (map (fun c => PyStr (String c EmptyString)) (list_ascii_of_string s))
  | _ => Raise TypeError
  end.

(** [os.getenv(key, default)] over the process environment. *)
Definition getenv (environ : list (string * string)) (key default : string) : string :=
  match assoc key environ with
  | Some v => v
  | None => default
  end.

(** ** Requests to the remote model *)

(** An f-string, kept as its literal pieces and interpolated values. *)
Inductive piece : Type :=
| Lit (s : string)
| Fmt (v : value).

Definition fstring : Type := list piece.

Record message : Type := { role : string; content : fstring }.

Record request : Type := {
  model : string;
  max_tokens : Z;
  temperature : Q;
  messages : list message
}.

(** ** The relational store

    The part of PostgreSQL the program relies on: a catalog of tables,
    CREATE TABLE IF NOT EXISTS, INSERT with SERIAL defaults and RETURNING,
    primary and foreign keys.  A row records, column by column, the value
    the program bound, as it was bound: the conversion the server applies
    when it assigns a value to a column (a number rounded to INTEGER or to
    DECIMAL(15,2)) is not modelled.  Rows are therefore read back for
    their keys only, the identifiers drawn from the sequences and the
    references to them, and counted; what a statement carries is read off
    the call, not off the row.  What the server rejects beyond keys
    (column types and lengths, reachability) is left to the fault oracle
    of the driver below.  A statement that fails changes no table. *)

Inductive sqltype : Type :=
| Serial
| Integer
| Varchar (n : Z)
| Decimal (precision scale : Z)
| Timestamp.

Record column : Type := {
  col_name : string;
  col_type : sqltype;
  col_primary_key : bool;
  col_references : option (string * string)
}.

Record table : Type := {
  tbl_columns : list column;
  tbl_rows : list (list value)
}.

Definition catalog : Type := list (string * table).
Definition counters : Type := list (string * Z).

Inductive statement : Type :=
| CreateTableIfNotExists (name : string) (cols : list column)
| InsertInto (tbl : string) (cols : list string) (returning : option string).

Definition column_names (t : table) : list string := map col_name (tbl_columns t).

(** The cell of [row] under column [cn]. *)
Definition cell (t : table) (cn : string) (row : list value) : option value :=
  assoc cn (combine (column_names t) row).

Definition column_values (t : table) (cn : string) : list value :=
  flat_map (fun row => match cell t cn row with Some v => [v] | None => [] end)
           (tbl_rows t).

Definition int_in (z : Z) (vs : list value) : bool :=
  existsb (fun v => match v with PyInt m => Z.eqb z m | _ => false end) vs.

Definition rows_of (cat : catalog) (name : string) : list (list value) :=
  match assoc name cat with
  | Some t => tbl_rows t
  | None => []
  end.

Definition seq_name (tn cn : string) : string := tn ++ "_" ++ cn ++ "_seq".

Definition nextval (seqs : counters) (name : string) : Z * counters :=
  let n := match assoc name seqs with Some n => n | None => 1%Z end in
  (n, assoc_set name (n + 1)%Z seqs).

(** A foreign key must point at a primary-key column of a table that exists. *)
Definition references_ok (cat : catalog) (c : column) : bool :=
  match col_references c with
  | None => true
  | Some (rt, rc) =>
      match assoc rt cat with
      | Some t =>
          existsb (fun c' => String.eqb (col_name c') rc && col_primary_key c')
                  (tbl_columns t)
      | None => false
      end
  end.

Definition fresh_sequences (name : string) (cols : list column) (seqs : counters)
  : counters :=
  fold_left (fun s c => match col_type c with
                        | Serial => assoc_set (seq_name name (col_name c)) 1%Z s
                        | _ => s
                        end) cols seqs.

(** CREATE TABLE IF NOT EXISTS: nothing happens when the name is taken. *)
Definition create_table (cat : catalog) (seqs : counters) (name : string)
  (cols : list column) : outcome (catalog * counters) :=
  match assoc name cat with
  | Some _ => Ok (cat, seqs)
  | None =>
      if forallb (references_ok cat) cols
      then Ok (cat ++ [(name, {| tbl_columns := cols; tbl_rows := [] |})],
               fresh_sequences name cols seqs)
      else Raise ProgrammingError
  end.

(** The row of an INSERT: the bound value, as bound, where the statement
    names the column, the next sequence value for an unnamed SERIAL
    column, NULL otherwise. *)
Fixpoint build_row (tn : string) (cols : list column) (given : list (string * value))
  (seqs : counters) : list value * counters :=
  match cols with
  | [] => ([], seqs)
  | c :: rest =>
      let '(v, seqs1) :=
        match assoc (col_name c) given with
        | Some v => (v, seqs)
        | None =>
            match col_type c with
            | Serial =>
                let '(n, s) := nextval seqs (seq_name tn (col_name c)) in (PyInt n, s)
            | _ => (PyNone, seqs)
            end
        end in
      let '(vs, seqs2) := build_row tn rest given seqs1 in
      (v :: vs, seqs2)
  end.

Definition primary_key_ok (t : table) (c : column) (v : value) : bool :=
  if col_primary_key c then
    match v with
    | PyInt z => negb (int_in z (column_values t (col_name c)))
    | _ => false
    end
  else true.

Definition foreign_key_ok (cat : catalog) (c : column) (v : value) : bool :=
  match col_references c with
  | None => true
  | Some (rt, rc) =>
      match v with
      | PyNone => true
      | PyInt z =>
          match assoc rt cat with
          | Some t' => int_in z (column_values t' rc)
          | None => false
          end
      | _ => false
      end
  end.

Definition constraints_ok (cat : catalog) (t : table) (row : list value) : bool :=
  forallb (fun cv => primary_key_ok t (fst cv) (snd cv)
                     && foreign_key_ok cat (fst cv) (snd cv))
          (combine (tbl_columns t) row).

Definition add_row (t : table) (row : list value) : table :=
  {| tbl_columns := tbl_columns t; tbl_rows := tbl_rows t ++ [row] |}.

(** INSERT INTO tn (cols) VALUES (vals): the new catalog, the counters and
    the row as stored. *)
Definition insert_row (cat : catalog) (seqs : counters) (tn : string)
  (cols : list string) (vals : list value)
  : outcome (catalog * counters * list value) :=
  match assoc tn cat with
  | None => Raise ProgrammingError
  | Some t =>
      if negb (forallb (fun c => existsb (String.eqb c) (column_names t)) cols)
      then Raise ProgrammingError
      else if negb (Nat.eqb (length cols) (length vals))
      then Raise ProgrammingError
      else
        let '(row, seqs') := build_row tn (tbl_columns t) (combine cols vals) seqs in
        if constraints_ok cat t row
        then Ok (assoc_set tn (add_row t row) cat, seqs', row)
        else Raise IntegrityError
  end.

(** One statement as [cursor.execute] runs it: catalog, counters and the
    result row left for [fetchone]. *)
Definition run_statement (cat : catalog) (seqs : counters) (sql : statement)
  (params : list value) : outcome (catalog * counters * option (list value)) :=
  match sql with
  | CreateTableIfNotExists name cols =>
      obind (create_table cat seqs name cols)
            (fun cs => Ok (fst cs, snd cs, None))
  | InsertInto tn cols returning =>
      obind (insert_row cat seqs tn cols params)
            (fun r =>
               let '(cat', seqs', row) := r in
               match returning with
               | None => Ok (cat', seqs', None)
               | Some rc =>
                   match assoc tn cat' with
                   | Some t =>
                       match cell t rc row with
                       | Some v => Ok (cat', seqs', Some [v])
                       | None => Raise ProgrammingError
                       end
                   | None => Raise ProgrammingError
                   end
               end)
  end.

(** The statement of [execute_values] applied to each tuple in turn. *)
Fixpoint run_values (cat : catalog) (seqs : counters) (tn : string)
  (cols : list string) (argslist : list (list value))
  : outcome (catalog * counters) :=
  match argslist with
  | [] => Ok (cat, seqs)
  | args :: rest =>
      obind (insert_row cat seqs tn cols args)
            (fun r => let '(cat', seqs', _) := r in run_values cat' seqs' tn cols rest)
  end.

(** ** The world the program runs in *)

(** The open psycopg2 connection: its uncommitted view of the tables, and
    the state of its cursor. *)
Record connection : Type := {
  view : catalog;
  cursor_open : bool;
  fetched : option (list value)
}.

(** The calls the program makes to the outside, in the order it makes them. *)
Inductive event : Type :=
| EvPrint (line : fstring)
| EvMessagesCreate (req : request)
| EvConnect (params : list (string * string))
| EvCursor
| EvExecute (sql : statement) (params : list value)
| EvFetchone
| EvExecuteValues (sql : statement) (argslist : list (list value))
| EvCommit (acknowledged : bool)
| EvCursorClose
| EvConnClose.

(** [tables] holds committed data only.  Sequence counters sit outside the
    transaction, as in PostgreSQL: a value drawn by a statement that is
    later rolled back is not handed out again. *)
Record world : Type := {
  tables : catalog;
  sequences : counters;
  session : option connection;
  trace : list event
}.

Definition clock (w : world) : nat := length (trace w).

Definition M (A : Type) : Type := world -> outcome A * world.

Definition ret {A : Type} (a : A) : M A := fun w => (Ok a, w).

Definition raise {A : Type} (e : exn) : M A := fun w => (Raise e, w).

Definition bind {A B : Type} (m : M A) (k : A -> M B) : M B :=
  fun w =>
    match m w with
    | (Ok a, w1) => k a w1
    | (Raise e, w1) => (Raise e, w1)
    end.

Definition lift {A : Type} (o : outcome A) : M A := fun w => (o, w).

Notation "x <- m ;; k" := (bind m (fun x => k))
  (at level 61, m at next level, right associativity).
Notation "m ;; k" := (bind m (fun _ => k))
  (at level 61, right associativity).

(** [try: body finally: cleanup]: the cleanup always runs; an exception of
    the body is raised again after it. *)
Definition try_finally {A : Type} (body : M A) (cleanup : M unit) : M A :=
  fun w =>
    let '(r, w1) := body w in
    match cleanup w1 with
    | (Ok _, w2) => (r, w2)
    | (Raise e, w2) => (Raise e, w2)
    end.

Fixpoint for_each {A : Type} (l : list A) (body : A -> M unit) : M unit :=
  match l with
  | [] => ret tt
  | x :: rest => body x ;; for_each rest body
  end.

(** A [for] loop that updates one local variable. *)
Fixpoint for_acc {A S : Type} (l : list A) (body : A -> S -> M S) (s : S) : M S :=
  match l with
  | [] => ret s
  | x :: rest => s1 <- body x s ;; for_acc rest body s1
  end.

Definition emit (e : event) : M unit :=
  fun w => (Ok tt, {| tables := tables w; sequences := sequences w;
                      session := session w; trace := trace w ++ [e] |}).

Definition print (line : fstring) : M unit := emit (EvPrint line).

(** ** The program *)

Record generator : Type := {
  api_key : option string;
  db_params : list (string * string)
}.

(** [FinancialDataGenerator.__init__] *)
Definition init (environ : list (string * string)) : generator :=
  {| api_key := assoc "ANTHROPIC_API_KEY" environ;
     db_params :=
       [("dbname", getenv environ "DB_NAME" "financial_data");
        ("user", getenv environ "DB_USER" "postgres");
        ("password", getenv environ "DB_PASSWORD" "postgres");
        ("host", getenv environ "DB_HOST" "localhost");
        ("port", getenv environ "DB_PORT" "5432")] |}.

Definition users_columns : list column :=
  [ {| col_name := "user_id"; col_type := Serial; col_primary_key := true;
       col_references := None |};
    {| col_name := "name"; col_type := Varchar 100; col_primary_key := false;
       col_references := None |};
    {| col_name := "age"; col_type := Integer; col_primary_key := false;
       col_references := None |};
    {| col_name := "occupation"; col_type := Varchar 100; col_primary_key := false;
       col_references := None |};
    {| col_name := "income_bracket"; col_type := Varchar 50; col_primary_key := false;
       col_references := None |} ].

Definition accounts_columns : list column :=
  [ {| col_name := "account_id"; col_type := Serial; col_primary_key := true;
       col_references := None |};
    {| col_name := "user_id"; col_type := Integer; col_primary_key := false;
       col_references := Some ("users", "user_id") |};
    {| col_name := "account_type"; col_type := Varchar 50; col_primary_key := false;
       col_references := None |};
    {| col_name := "institution"; col_type := Varchar 100; col_primary_key := false;
       col_references := None |};
    {| col_name := "current_balance"; col_type := Decimal 15 2;
       col_primary_key := false; col_references := None |} ].

Definition transactions_columns : list column :=
  [ {| col_name := "transaction_id"; col_type := Serial; col_primary_key := true;
       col_references := None |};
    {| col_name := "account_id"; col_type := Integer; col_primary_key := false;
       col_references := Some ("accounts", "account_id") |};
    {| col_name := "date"; col_type := Timestamp; col_primary_key := false;
       col_references := None |};
    {| col_name := "amount"; col_type := Decimal 15 2; col_primary_key := false;
       col_references := None |};
    {| col_name := "category"; col_type := Varchar 100; col_primary_key := false;
       col_references := None |};
    {| col_name := "merchant_name"; col_type := Varchar 200; col_primary_key := false;
       col_references := None |};
    {| col_name := "transaction_type"; col_type := Varchar 50;
       col_primary_key := false; col_references := None |} ].

Definition create_users : statement := CreateTableIfNotExists "users" users_columns.
Definition create_accounts : statement :=
  CreateTableIfNotExists "accounts" accounts_columns.
Definition create_transactions : statement :=
  CreateTableIfNotExists "transactions" transactions_columns.

Definition insert_user : statement :=
  InsertInto "users" ["name"; "age"; "occupation"; "income_bracket"] (Some "user_id").
Definition insert_account : statement :=
  InsertInto "accounts" ["user_id"; "account_type"; "institution"; "current_balance"]
             (Some "account_id").
Definition insert_transactions : statement :=
  InsertInto "transactions"
             ["account_id"; "date"; "amount"; "category"; "merchant_name";
              "transaction_type"] None.

Definition dq : string := String (ascii_of_nat 34) EmptyString.

Definition profile_prompt : fstring :=
  [Lit ("Generate a realistic user profile for financial data analysis with the following details in JSON format:
        - A realistic full name
        - Age (between 25-75)
        - Occupation
        - Income bracket (one of: " ++ dq ++ "25k-50k" ++ dq ++ ", " ++ dq ++ "50k-75k"
        ++ dq ++ ", " ++ dq ++ "75k-100k" ++ dq ++ ", " ++ dq ++ "100k-150k" ++ dq
        ++ ", " ++ dq ++ "150k+" ++ dq ++ ")
        Make it realistic and varied.")].

Definition accounts_prompt (income : value) : fstring :=
  [Lit "Generate realistic bank account data for a person with income ";
   Fmt income;
   Lit " in JSON format.
        Include 2-4 accounts with:
        - account_type (checking, savings, credit_card, investment)
        - institution (use realistic bank names)
        - current_balance (make it realistic based on income and account type)
        Return as a list of account objects."].

Definition transactions_prompt (account_type current_balance income : value) : fstring :=
  [Lit "Generate 2 years of realistic transactions for a ";
   Fmt account_type;
   Lit " account 
        with current balance $";
   Fmt current_balance;
   Lit " for a person with income ";
   Fmt income;
   Lit ".
        Include:
        - date (between 2022-01-01 and 2023-12-31)
        - amount
        - category
        - merchant_name
        - transaction_type (debit/credit)
        Make transactions realistic based on account type and balance. Return as JSON list."].

Definition user_message (prompt : fstring) : list message :=
  [{| role := "user"; content := prompt |}].

Definition profile_request : request :=
  {| model := "claude-3-sonnet-20240229"; max_tokens := 300; temperature := 7 # 10;
     messages := user_message profile_prompt |}.

Definition accounts_request (income : value) : request :=
  {| model := "claude-3-sonnet-20240229"; max_tokens := 500; temperature := 7 # 10;
     messages := user_message (accounts_prompt income) |}.

Definition transactions_request (account_type current_balance income : value) : request :=
  {| model := "claude-3-sonnet-20240229"; max_tokens := 1000; temperature := 7 # 10;
     messages := user_message (transactions_prompt account_type current_balance income) |}.

Section Pipeline.

(** The reply of the remote model to the request made at a given time:
    the text of [response.content], or the exception the client raises. *)
Variable llm : nat -> request -> outcome string.

(** [json.loads]. *)
Variable json_loads : string -> outcome value.

(** Failures the database side decides on its own (lost connection, a
    value the column type rejects, ...): the exception, if any, with which
    the call made at a given time fails. *)
Variable db_fault : nat -> option exn.

Definition messages_create (req : request) : M string :=
  fun w =>
    let '(_, w1) := emit (EvMessagesCreate req) w in
    (llm (clock w) req, w1).

Definition with_session (s : option connection) (w : world) : world :=
  {| tables := tables w; sequences := sequences w; session := s; trace := trace w |}.

(** [psycopg2.connect] on the keyword parameters: a new transaction that sees the
    committed tables.  The program holds one connection at a time. *)
Definition psycopg2_connect (params : list (string * string)) : M unit :=
  fun w =>
    let '(_, w1) := emit (EvConnect params) w in
    match db_fault (clock w) with
    | Some e => (Raise e, w1)
    | None =>
        (Ok tt, with_session (Some {| view := tables w; cursor_open := false;
                                      fetched := None |}) w1)
    end.

(** [conn.cursor()] *)
Definition conn_cursor : M unit :=
  fun w =>
    let '(_, w1) := emit EvCursor w in
    match session w with
    | None => (Raise InterfaceError, w1)
    | Some c =>
        (Ok tt, with_session (Some {| view := view c; cursor_open := true;
                                      fetched := None |}) w1)
    end.

(** [cur.execute(sql, params)].  A statement that fails leaves the view
    and the counters as they were; the server may have drawn from a
    sequence before it failed, which goes unrecorded: the exception ends
    the run, and no later statement of the run reads the counters. *)
Definition cur_execute (sql : statement) (params : list value) : M unit :=
  fun w =>
    let '(_, w1) := emit (EvExecute sql params) w in
    match session w with
    | None => (Raise InterfaceError, w1)
    | Some c =>
        if negb (cursor_open c) then (Raise InterfaceError, w1)
        else
          match db_fault (clock w) with
          | Some e => (Raise e, w1)
          | None =>
              match run_statement (view c) (sequences w) sql params with
              | Raise e => (Raise e, w1)
              | Ok (cat, seqs, res) =>
                  (Ok tt,
                   {| tables := tables w; sequences := seqs;
                      session := Some {| view := cat; cursor_open := true;
                                         fetched := res |};
                      trace := trace w1 |})
              end
          end
    end.

(** [cur.fetchone()] after a statement that returns one row. *)
Definition cur_fetchone : M (list value) :=
  fun w =>
    let '(_, w1) := emit EvFetchone w in
    match session w with
    | None => (Raise InterfaceError, w1)
    | Some c =>
        if negb (cursor_open c) then (Raise InterfaceError, w1)
        else
          match fetched c with
          | None => (Raise ProgrammingError, w1)
          | Some row =>
              (Ok row, with_session (Some {| view := view c; cursor_open := true;
                                             fetched := None |}) w1)
          end
    end.

(** [execute_values(cur, sql, argslist)]: no statement is sent for an
    empty [argslist].  A failure leaves the view and the counters as they
    were, as for [cur_execute]. *)
Definition execute_values (sql : statement) (argslist : list (list value)) : M unit :=
  fun w =>
    let '(_, w1) := emit (EvExecuteValues sql argslist) w in
    match session w with
    | None => (Raise InterfaceError, w1)
    | Some c =>
        if negb (cursor_open c) then (Raise InterfaceError, w1)
        else
          match argslist with
          | [] => (Ok tt, w1)
          | _ :: _ =>
              match db_fault (clock w) with
              | Some e => (Raise e, w1)
              | None =>
                  match sql with
                  | CreateTableIfNotExists _ _ => (Raise ProgrammingError, w1)
                  | InsertInto tn cols _ =>
                      match run_values (view c) (sequences w) tn cols argslist with
                      | Raise e => (Raise e, w1)
                      | Ok (cat, seqs) =>
                          (Ok tt,
                           {| tables := tables w; sequences := seqs;
                              session := Some {| view := cat; cursor_open := true;
                                                 fetched := None |};
                              trace := trace w1 |})
                      end
                  end
              end
          end
    end.

(** [conn.commit()]: the view of the connection becomes the committed
    tables, unless the server fails to acknowledge. *)
Definition conn_commit : M unit :=
  fun w =>
    match session w with
    | None => let '(_, w1) := emit (EvCommit false) w in (Raise InterfaceError, w1)
    | Some c =>
        match db_fault (clock w) with
        | Some e => let '(_, w1) := emit (EvCommit false) w in (Raise e, w1)
        | None =>
            (Ok tt, {| tables := view c; sequences := sequences w;
                       session := session w; trace := trace w ++ [EvCommit true] |})
        end
    end.

(** [cur.close()] *)
Definition cur_close : M unit :=
  fun w =>
    let '(_, w1) := emit EvCursorClose w in
    match session w with
    | None => (Ok tt, w1)
    | Some c =>
        (Ok tt, with_session (Some {| view := view c; cursor_open := false;
                                      fetched := None |}) w1)
    end.

(** [conn.close()]: whatever was not committed is dropped. *)
Definition conn_close : M unit :=
  fun w =>
    let '(_, w1) := emit EvConnClose w in
    (Ok tt, with_session None w1).

(** [create_tables] *)
Definition create_tables (self : generator) : M unit :=
  psycopg2_connect (db_params self) ;;
  conn_cursor ;;
  try_finally
    (cur_execute create_users [] ;;
     cur_execute create_accounts [] ;;
     cur_execute create_transactions [] ;;
     conn_commit)
    (cur_close ;; conn_close).

(** [generate_user_profile] *)
Definition generate_user_profile (self : generator) (index : Z) : M value :=
  response <- messages_create profile_request ;;
  lift (json_loads response).

(** [generate_accounts] *)
Definition generate_accounts (self : generator) (user_profile : value) : M value :=
  income <- lift (subscript user_profile "income_bracket") ;;
  response <- messages_create (accounts_request income) ;;
  lift (json_loads response).

(** [generate_transactions] *)
Definition generate_transactions (self : generator) (account user_profile : value)
  : M value :=
  account_type <- lift (subscript account "account_type") ;;
  current_balance <- lift (subscript account "current_balance") ;;
  income <- lift (subscript user_profile "income_bracket") ;;
  response <- messages_create (transactions_request account_type current_balance income) ;;
  lift (json_loads response).

(** The tuple built for one transaction by the list comprehension of
    [insert_data]. *)
Definition transaction_tuple (account_id txn : value) : outcome (list value) :=
  obind (subscript txn "date") (fun date =>
  obind (subscript txn "amount") (fun amount =>
  obind (subscript txn "category") (fun category =>
  obind (subscript txn "merchant_name") (fun merchant_name =>
  obind (subscript txn "transaction_type") (fun transaction_type =>
  Ok [account_id; date; amount; category; merchant_name; transaction_type]))))).

(** The body of the loop over [accounts_data]. *)
Definition insert_account_rows (user_id transactions_data account : value) : M unit :=
  account_type <- lift (subscript account "account_type") ;;
  institution <- lift (subscript account "institution") ;;
  current_balance <- lift (subscript account "current_balance") ;;
  cur_execute insert_account [user_id; account_type; institution; current_balance] ;;
  row <- cur_fetchone ;;
  account_id <- lift (tuple_get row 0) ;;
  txns <- lift (iterate transactions_data) ;;
  argslist <- lift (omap (transaction_tuple account_id) txns) ;;
  execute_values insert_transactions argslist.

(** The statements of [insert_data] that precede the commit. *)
Definition insert_rows (user_data accounts_data transactions_data : value) : M unit :=
  name <- lift (subscript user_data "name") ;;
  age <- lift (subscript user_data "age") ;;
  occupation <- lift (subscript user_data "occupation") ;;
  income_bracket <- lift (subscript user_data "income_bracket") ;;
  cur_execute insert_user [name; age; occupation; income_bracket] ;;
  row <- cur_fetchone ;;
  user_id <- lift (tuple_get row 0) ;;
  accounts <- lift (iterate accounts_data) ;;
  for_each accounts (insert_account_rows user_id transactions_data).

(** [insert_data] *)
Definition insert_data (self : generator)
  (user_data accounts_data transactions_data : value) : M unit :=
  psycopg2_connect (db_params self) ;;
  conn_cursor ;;
  try_finally
    (insert_rows user_data accounts_data transactions_data ;;
     conn_commit)
    (cur_close ;; conn_close).

(** The inner loop of [generate_all_data]: one batch per account, all
    appended to [all_transactions]. *)
Definition collect_transactions (self : generator) (user_profile : value)
  (accounts : list value) : M (list value) :=
  for_acc accounts
    (fun account all_transactions =>
       transactions <- generate_transactions self account user_profile ;;
       items <- lift (iterate transactions) ;;
       ret (all_transactions ++ items))
    [].

(** The body of the loop over [range(num_users)]. *)
Definition generate_user (self : generator) (num_users : Z) (i : nat) : M unit :=
  print [Lit "Generating data for user "; Fmt (PyInt (Z.of_nat i + 1));
         Lit "/"; Fmt (PyInt num_users)] ;;
  user_profile <- generate_user_profile self (Z.of_nat i) ;;
  accounts <- generate_accounts self user_profile ;;
  items <- lift (iterate accounts) ;;
  all_transactions <- collect_transactions self user_profile items ;;
  insert_data self user_profile accounts (PyList all_transactions) ;;
  print [Lit "Completed user "; Fmt (PyInt (Z.of_nat i + 1))].

(** [generate_all_data] *)
Definition generate_all_data (self : generator) (num_users : Z) : M unit :=
  create_tables self ;;
  for_each (seq 0 (Z.to_nat num_users)) (generate_user self num_users).

End Pipeline.

(** ** A stubbed environment for concrete runs *)

(** JSON text of a value whose strings need no escaping. *)
Fixpoint dumps (v : value) : string :=
  match v with
  | PyNone => "null"
  | PyBool true => "true"
  | PyBool false => "false"
  | PyInt n => NilZero.string_of_int (Z.to_int n)
  | PyFloat r => r
  | PyStr s => dq ++ s ++ dq
  | PyList items => ("[" ++ String.concat ", " (map dumps items) ++ "]")%string
  | PyDict fields =>
      ("{" ++ String.concat ", "
         (map (fun kv : string * value =>
                 let (k, x) := kv in (dq ++ k ++ dq ++ ": " ++ dumps x)%string) fields)
       ++ "}")%string
  end.

(** A decoder that knows the texts of the listed values and rejects every
    other text. *)
Definition decode_known (known : list value) (text : string) : outcome value :=
  match assoc text (map (fun v => (dumps v, v)) known) with
  | Some v => Ok v
  | None => Raise JSONDecodeError
  end.

Definition jane : value :=
  PyDict [("name", PyStr "Jane Doe"); ("age", PyInt 34); ("occupation", PyStr "Engineer");
          ("income_bracket", PyStr "75k-100k")].

Definition checking : value :=
  PyDict [("account_type", PyStr "checking"); ("institution", PyStr "Test Bank");
          ("current_balance", PyFloat "1000.0")].

Definition savings : value :=
  PyDict [("account_type", PyStr "savings"); ("institution", PyStr "Test Bank");
          ("current_balance", PyFloat "2500.0")].

Definition groceries : value :=
  PyDict [("date", PyStr "2023-01-15"); ("amount", PyFloat "-50.0");
          ("category", PyStr "groceries"); ("merchant_name", PyStr "Store");
          ("transaction_type", PyStr "debit")].

Definition interest : value :=
  PyDict [("date", PyStr "2023-02-01"); ("amount", PyFloat "12.5");
          ("category", PyStr "interest"); ("merchant_name", PyStr "Test Bank");
          ("transaction_type", PyStr "credit")].

Definition stub_known : list value :=
  [jane; PyList [checking; savings]; PyList [groceries]; PyList [interest]; PyList []].

Definition stub_loads : string -> outcome value := decode_known stub_known.

(** A model that answers with Jane Doe, her checking and savings accounts,
    one grocery purchase for the checking account and one interest payment
    for the savings account. *)
Definition stub_llm (t : nat) (req : request) : outcome string :=
  if Z.eqb (max_tokens req) 300 then Ok (dumps jane)
  else if Z.eqb (max_tokens req) 500 then Ok (dumps (PyList [checking; savings]))
  else
    match messages req with
    | [{| content := _ :: Fmt (PyStr k) :: _ |}] =>
        if String.eqb k "checking" then Ok (dumps (PyList [groceries]))
        else Ok (dumps (PyList [interest]))
    | _ => Raise APIError
    end.

(** A model that answers every request with the empty JSON array. *)
Definition empty_llm (t : nat) (req : request) : outcome string := Ok "[]".

Definition no_fault (t : nat) : option exn := None.

(** A server with no table, no open connection, nothing traced yet. *)
Definition blank : world :=
  {| tables := []; sequences := []; session := None; trace := [] |}.

(** The world after the first [create_tables] on a blank server. *)
Definition ready : world := snd (create_tables no_fault (init []) blank).

(** ** Vocabulary of the specification *)

(** The table of the interface description: each connection parameter
    with the environment variable that overrides it and its default. *)
Definition documented_parameters : list (string * (string * string)) :=
  [("dbname", ("DB_NAME", "financial_data"));
   ("user", ("DB_USER", "postgres"));
   ("password", ("DB_PASSWORD", "postgres"));
   ("host", ("DB_HOST", "localhost"));
   ("port", ("DB_PORT", "5432"))].


(** The fixed configuration of a generation tier. *)
Definition tier_config (tokens : Z) (req : request) : Prop :=
  max_tokens req = tokens /\ temperature req = (7 # 10)%Q.

Definition account_types : list string :=
  ["checking"; "savings"; "credit_card"; "investment"].

(** What the data model asks of the accounts of one user: a list of two
    to four records whose [account_type] is one of the four kinds. *)
Definition accounts_well_formed (v : value) : Prop :=
  exists items,
    v = PyList items /\
    (2 <= length items <= 4)%nat /\
    Forall (fun account =>
              exists kind, subscript account "account_type" = Ok (PyStr kind) /\
                           In kind account_types) items.

(** The world once [cur.close()] and [conn.close()] have run. *)
Definition closed (w : world) : world :=
  {| tables := tables w; sequences := sequences w; session := None;
     trace := trace w ++ [EvCursorClose; EvConnClose] |}.

(** The world once a connection and its cursor have been opened without
    failure. *)
Definition opened (params : list (string * string)) (w : world) : world :=
  {| tables := tables w; sequences := sequences w;
     session := Some {| view := tables w; cursor_open := true; fetched := None |};
     trace := trace w ++ [EvConnect params; EvCursor] |}.

(** The world after a statement that left catalog [cat], counters [seqs]
    and result [res]. *)
Definition executed (ev : event) (cat : catalog) (seqs : counters)
  (res : option (list value)) (w : world) : world :=
  {| tables := tables w; sequences := seqs;
     session := Some {| view := cat; cursor_open := true; fetched := res |};
     trace := trace w ++ [ev] |}.

(** A world whose connection is open, with an open cursor and view [cat]. *)
Definition in_session (w : world) (cat : catalog) : Prop :=
  exists res, session w = Some {| view := cat; cursor_open := true; fetched := res |}.

(** The world after a connection attempt that failed. *)
Definition refused (params : list (string * string)) (w : world) : world :=
  {| tables := tables w; sequences := sequences w; session := session w;
     trace := trace w ++ [EvConnect params] |}.

Definition schema_tables : list string := ["users"; "accounts"; "transactions"].

Definition columns_of (cat : catalog) (name : string) : list string :=
  match assoc name cat with
  | Some t => column_names t
  | None => []
  end.

(** The cell of a row of table [tn] under column [cn]. *)
Definition field (cat : catalog) (tn cn : string) (row : list value) : option value :=
  assoc cn (combine (columns_of cat tn) row).

(** Catalog [cat'] is [cat] with [rows] appended to table [tn], every
    other table and every list of columns being as before. *)
Definition appended (cat cat' : catalog) (tn : string) (rows : list (list value))
  : Prop :=
  rows_of cat' tn = rows_of cat tn ++ rows /\
  (forall tn', tn' <> tn -> rows_of cat' tn' = rows_of cat tn') /\
  (forall tn', columns_of cat' tn' = columns_of cat tn').

(** A stored row holds every value the statement bound to a column. *)
Definition holds_bound (cat : catalog) (tn : string) (cols : list string)
  (args row : list value) : Prop :=
  forall cn v, assoc cn (combine cols args) = Some v -> field cat tn cn row = Some v.

(** Catalog [cat'] is [cat] with new rows at the end of the three tables
    of the schema, the columns of every table being as before. *)
Definition grown (cat cat' : catalog) (us accs ts : list (list value)) : Prop :=
  rows_of cat' "users" = rows_of cat "users" ++ us /\
  rows_of cat' "accounts" = rows_of cat "accounts" ++ accs /\
  rows_of cat' "transactions" = rows_of cat "transactions" ++ ts /\
  (forall tn, columns_of cat' tn = columns_of cat tn).

(** What one turn of the loop over the accounts wrote: the identifier the
    database returned, the account row, the transaction rows, and the
    arguments of the two statements. *)
Record written_account : Type := {
  wa_id : value;
  wa_row : list value;
  wa_transactions : list (list value);
  wa_details : list value;
  wa_argslist : list (list value)
}.

Definition account_events (user_id : value) (x : written_account) : list event :=
  [EvExecute insert_account (user_id :: wa_details x);
   EvFetchone;
   EvExecuteValues insert_transactions (wa_argslist x)].

(** The rows of one turn carry the captured identifiers: the account row
    has [user_id] in its user_id column and the returned identifier in its
    account_id column, and every transaction tuple and row has that returned
    identifier as its account_id. *)
Definition linked (cat : catalog) (user_id : value) (x : written_account) : Prop :=
  field cat "accounts" "user_id" (wa_row x) = Some user_id /\
  field cat "accounts" "account_id" (wa_row x) = Some (wa_id x) /\
  Forall (fun args => hd_error args = Some (wa_id x)) (wa_argslist x) /\
  Forall (fun row => field cat "transactions" "account_id" row = Some (wa_id x))
         (wa_transactions x).

(** ** Reading traces with an automaton *)

(** The state an automaton reaches on a list of events, if it accepts
    every one of them. *)
Fixpoint run {state : Type} (step : state -> event -> option state) (s : state)
  (evs : list event) : option state :=
  match evs with
  | [] => Some s
  | ev :: rest =>
      match step s ev with
      | Some s' => run step s' rest
      | None => None
      end
  end.

(** [m], started in any world, adds to the trace events that take the
    automaton from [s] to a state that [Q] relates to the result. *)
Definition moves {state A : Type} (step : state -> event -> option state)
  (m : M A) (s : state) (Q : outcome A -> state -> Prop) : Prop :=
  forall w, exists added s',
    trace (snd (m w)) = trace w ++ added /\
    run step s added = Some s' /\
    Q (fst (m w)) s'.

(** The statements of an open transaction: neither a commit nor a close. *)
Definition statement_event (ev : event) : bool :=
  match ev with
  | EvExecute _ _ | EvFetchone | EvExecuteValues _ _ => true
  | _ => false
  end.

Definition statements_only (s : unit) (ev : event) : option unit :=
  if statement_event ev then Some tt else None.

(** Where the persister stands on its connection: before the cursor, before
    the user insert, before its identifier is fetched, between two
    accounts, before the identifier of an account is fetched, before the
    transactions of that account are sent. *)
Inductive stage : Type :=
| AwaitCursor
| AwaitUser
| AwaitUserId
| BetweenAccounts
| AwaitAccountId
| AwaitTransactions.

(** Where a run of [generate_all_data] stands.  [PSchema calls] counts the
    calls made on the schema connection: the cursor, then the tables. *)
Inductive phase : Type :=
| PStart
| PSchema (calls : nat) (committed : bool)
| PReady (done : nat)
| PAnnounced (i : nat)
| PProfiled (i : nat)
| PAccounts (i : nat)
| PPersist (i : nat) (at_stage : stage) (committed : bool)
| PPersisted (i : nat)
| PAborted.

Definition progress_started (num_users : Z) (i : nat) (line : fstring) : bool :=
  match line with
  | [Lit a; Fmt (PyInt k); Lit b; Fmt (PyInt n)] =>
      String.eqb a "Generating data for user " && Z.eqb k (Z.of_nat i + 1)
      && String.eqb b "/" && Z.eqb n num_users && Z.ltb (Z.of_nat i) num_users
  | _ => false
  end.

Definition progress_completed (i : nat) (line : fstring) : bool :=
  match line with
  | [Lit a; Fmt (PyInt k)] =>
      String.eqb a "Completed user " && Z.eqb k (Z.of_nat i + 1)
  | _ => false
  end.

(** The order of the orchestrator, as an automaton over the calls made.
    The schema connection comes first: a cursor, then [users], [accounts]
    and [transactions] created in this order, then the commit, before the
    connection is closed.  Then, user after user: the progress line, the
    profile request, the accounts request, the transaction requests, and
    the connection of the persister, on which the user is inserted and its
    identifier fetched, then for each account the account is inserted, its
    identifier fetched and its transactions sent, a commit being accepted
    between two accounts only; and the completion line.  A connection
    closed without an acknowledged commit leads to [PAborted], where no
    further call is accepted. *)
Definition orchestration (num_users : Z) (p : phase) (ev : event) : option phase :=
  match p, ev with
  | PStart, EvConnect _ => Some (PSchema 0 false)
  | PSchema 0 false, EvCursor => Some (PSchema 1 false)
  | PSchema (S created) false, EvExecute (CreateTableIfNotExists name _) [] =>
      match nth_error schema_tables created with
      | Some expected =>
          if String.eqb name expected then Some (PSchema (S (S created)) false) else None
      | None => None
      end
  | PSchema 4 false, EvCommit ack => Some (PSchema 4 ack)
  | PSchema calls c, EvCursorClose => Some (PSchema calls c)
  | PSchema _ c, EvConnClose => Some (if c then PReady 0 else PAborted)
  | PReady i, EvPrint line =>
      if progress_started num_users i line then Some (PAnnounced i) else None
  | PAnnounced i, EvMessagesCreate req =>
      if Z.eqb (max_tokens req) 300 then Some (PProfiled i) else None
  | PProfiled i, EvMessagesCreate req =>
      if Z.eqb (max_tokens req) 500 then Some (PAccounts i) else None
  | PAccounts i, EvMessagesCreate req =>
      if Z.eqb (max_tokens req) 1000 then Some (PAccounts i) else None
  | PAccounts i, EvConnect _ => Some (PPersist i AwaitCursor false)
  | PPersist i AwaitCursor false, EvCursor => Some (PPersist i AwaitUser false)
  | PPersist i AwaitUser false, EvExecute (InsertInto tbl _ (Some _)) _ =>
      if String.eqb tbl "users" then Some (PPersist i AwaitUserId false) else None
  | PPersist i AwaitUserId false, EvFetchone => Some (PPersist i BetweenAccounts false)
  | PPersist i BetweenAccounts false, EvExecute (InsertInto tbl _ (Some _)) _ =>
      if String.eqb tbl "accounts" then Some (PPersist i AwaitAccountId false) else None
  | PPersist i AwaitAccountId false, EvFetchone =>
      Some (PPersist i AwaitTransactions false)
  | PPersist i AwaitTransactions false, EvExecuteValues (InsertInto tbl _ None) _ =>
      if String.eqb tbl "transactions" then Some (PPersist i BetweenAccounts false)
      else None
  | PPersist i BetweenAccounts false, EvCommit ack =>
      Some (PPersist i BetweenAccounts ack)
  | PPersist i st c, EvCursorClose => Some (PPersist i st c)
  | PPersist i _ c, EvConnClose => Some (if c then PPersisted i else PAborted)
  | PPersisted i, EvPrint line =>
      if progress_completed i line then Some (PReady (S i)) else None
  | _, _ => None
  end.

Definition is_ready (p : phase) : bool :=
  match p with
  | PReady _ => true
  | _ => false
  end.

(** A computation that leaves the committed tables alone. *)
Definition keeps_tables {A : Type} (m : M A) : Prop :=
  forall w, tables (snd (m w)) = tables w.

(** The stubbed run of the whole program for one user. *)
Definition one_user_run : outcome unit * world :=
  generate_all_data stub_llm stub_loads no_fault (init []) 1 blank.

(** Jane Doe with her two accounts and the flattened list of their
    transactions, persisted on a server whose schema exists. *)
Definition jane_persisted : outcome unit * world :=
  insert_data no_fault (init []) jane (PyList [checking; savings])
              (PyList [groceries; interest]) ready.

(** Jane Doe persisted with no account, the transaction list being given
    all the same. *)
Definition jane_alone : outcome unit * world :=
  insert_data no_fault (init []) jane (PyList []) (PyList [groceries; interest]) ready.

(** A step of the run that either succeeds and reaches [target], or raises
    somewhere short of the next user. *)
Definition lands {A : Type} (target : phase) (r : outcome A) (p : phase) : Prop :=
  match r with
  | Ok _ => p = target
  | Raise _ => is_ready p = false
  end.

(** A step of the persister: it reaches [target], or raises somewhere on
    its connection, nothing being committed. *)
Definition persisting (i : nat) (target : stage) {A : Type} (r : outcome A) (p : phase)
  : Prop :=
  match r with
  | Ok _ => p = PPersist i target false
  | Raise _ => exists st, p = PPersist i st false
  end.

(** [req] is the transactions request built from [account] and
    [user_profile]. *)
Definition batch_request (user_profile account : value) (req : request) : Prop :=
  exists kind balance income,
    subscript account "account_type" = Ok kind /\
    subscript account "current_balance" = Ok balance /\
    subscript user_profile "income_bracket" = Ok income /\
    req = transactions_request kind balance income.

Definition started_line (num_users : Z) (i : nat) : fstring :=
  [Lit "Generating data for user "; Fmt (PyInt (Z.of_nat i + 1));
   Lit "/"; Fmt (PyInt num_users)].

Definition completed_line (i : nat) : fstring :=
  [Lit "Completed user "; Fmt (PyInt (Z.of_nat i + 1))].

(** The world with further events at the end of its trace. *)
Definition logged (evs : list event) (w : world) : world :=
  {| tables := tables w; sequences := sequences w; session := session w;
     trace := trace w ++ evs |}.

(** The calls of a [create_tables] that succeeds. *)
Definition schema_events (self : generator) : list event :=
  [EvConnect (db_params self); EvCursor;
   EvExecute create_users []; EvExecute create_accounts [];
   EvExecute create_transactions [];
   EvCommit true; EvCursorClose; EvConnClose].

(** ** The orchestrator, step by step

    What the description of [generate_all_data] asks for, as relations
    between the world a step starts in, its result and the world it ends
    in.  Each step starts in the world the previous one left, and a step
    that raises ends the whole run with that exception. *)

Section Orchestrated.

Variable llm : nat -> request -> outcome string.
Variable json_loads : string -> outcome value.
Variable db_fault : nat -> option exn.
Variable self : generator.
Variable num_users : Z.

(** The decoded reply of the remote model to a request made at time [t]. *)
Definition decoded (t : nat) (req : request) : outcome value :=
  obind (llm t req) json_loads.

(** [batches] are the decoded replies to the requests [sent] one after the
    other from time [t] on, each read as a list: one batch per request. *)
Fixpoint replies (t : nat) (sent : list request) (batches : list (list value)) : Prop :=
  match sent, batches with
  | [], [] => True
  | req :: sent', batch :: batches' =>
      (exists transactions,
          decoded t req = Ok transactions /\ iterate transactions = Ok batch)
      /\ replies (S t) sent' batches'
  | _, _ => False
  end.

(** One transaction batch per account, account after account: the batches
    of all the accounts, or the exception of the first account for which
    the generation fails or does not give a list. *)
Inductive batches_generated (user_profile : value)
  : list value -> world -> outcome (list (list value)) -> world -> Prop :=
| batches_none (w : world) :
    batches_generated user_profile [] w (Ok []) w
| batches_raise (account : value) (rest : list value) (w w1 : world) (e : exn) :
    generate_transactions llm json_loads self account user_profile w = (Raise e, w1) ->
    batches_generated user_profile (account :: rest) w (Raise e) w1
| batches_not_iterable (account : value) (rest : list value) (w w1 : world)
    (transactions : value) (e : exn) :
    generate_transactions llm json_loads self account user_profile w
    = (Ok transactions, w1) ->
    iterate transactions = Raise e ->
    batches_generated user_profile (account :: rest) w (Raise e) w1
| batches_abort (account : value) (rest : list value) (w w1 w2 : world)
    (transactions : value) (batch : list value) (e : exn) :
    generate_transactions llm json_loads self account user_profile w
    = (Ok transactions, w1) ->
    iterate transactions = Ok batch ->
    batches_generated user_profile rest w1 (Raise e) w2 ->
    batches_generated user_profile (account :: rest) w (Raise e) w2
| batches_next (account : value) (rest : list value) (w w1 w2 : world)
    (transactions : value) (batch : list value) (batches : list (list value)) :
    generate_transactions llm json_loads self account user_profile w
    = (Ok transactions, w1) ->
    iterate transactions = Ok batch ->
    batches_generated user_profile rest w1 (Ok batches) w2 ->
    batches_generated user_profile (account :: rest) w (Ok (batch :: batches)) w2.

(** The iteration for user [i]: the progress line, the profile, the
    accounts from that profile, the batches of these accounts from that
    profile, the persister on the profile, the accounts and all the batches
    together, and the completion line.  The iteration raises what its first
    failing step raises, and ends there. *)
Inductive turn (i : nat) (w : world) : outcome unit -> world -> Prop :=
| turn_profile_raises (e : exn) (w1 : world) :
    generate_user_profile llm json_loads self (Z.of_nat i)
      (logged [EvPrint (started_line num_users i)] w) = (Raise e, w1) ->
    turn i w (Raise e) w1
| turn_accounts_raise (user_profile : value) (e : exn) (w1 w2 : world) :
    generate_user_profile llm json_loads self (Z.of_nat i)
      (logged [EvPrint (started_line num_users i)] w) = (Ok user_profile, w1) ->
    generate_accounts llm json_loads self user_profile w1 = (Raise e, w2) ->
    turn i w (Raise e) w2
| turn_accounts_not_iterable (user_profile accounts : value) (e : exn) (w1 w2 : world) :
    generate_user_profile llm json_loads self (Z.of_nat i)
      (logged [EvPrint (started_line num_users i)] w) = (Ok user_profile, w1) ->
    generate_accounts llm json_loads self user_profile w1 = (Ok accounts, w2) ->
    iterate accounts = Raise e ->
    turn i w (Raise e) w2
| turn_batches_raise (user_profile accounts : value) (items : list value) (e : exn)
    (w1 w2 w3 : world) :
    generate_user_profile llm json_loads self (Z.of_nat i)
      (logged [EvPrint (started_line num_users i)] w) = (Ok user_profile, w1) ->
    generate_accounts llm json_loads self user_profile w1 = (Ok accounts, w2) ->
    iterate accounts = Ok items ->
    batches_generated user_profile items w2 (Raise e) w3 ->
    turn i w (Raise e) w3
| turn_persister_raises (user_profile accounts : value) (items : list value)
    (batches : list (list value)) (e : exn) (w1 w2 w3 w4 : world) :
    generate_user_profile llm json_loads self (Z.of_nat i)
      (logged [EvPrint (started_line num_users i)] w) = (Ok user_profile, w1) ->
    generate_accounts llm json_loads self user_profile w1 = (Ok accounts, w2) ->
    iterate accounts = Ok items ->
    batches_generated user_profile items w2 (Ok batches) w3 ->
    insert_data db_fault self user_profile accounts (PyList (concat batches)) w3
    = (Raise e, w4) ->
    turn i w (Raise e) w4
| turn_completed (user_profile accounts : value) (items : list value)
    (batches : list (list value)) (w1 w2 w3 w4 : world) :
    generate_user_profile llm json_loads self (Z.of_nat i)
      (logged [EvPrint (started_line num_users i)] w) = (Ok user_profile, w1) ->
    generate_accounts llm json_loads self user_profile w1 = (Ok accounts, w2) ->
    iterate accounts = Ok items ->
    batches_generated user_profile items w2 (Ok batches) w3 ->
    insert_data db_fault self user_profile accounts (PyList (concat batches)) w3
    = (Ok tt, w4) ->
    turn i w (Ok tt) (logged [EvPrint (completed_line i)] w4).

(** [count] iterations in sequence from user [first] on: the next one
    starts where the previous one completed, and none starts once one has
    raised. *)
Inductive turns : nat -> nat -> world -> outcome unit -> world -> Prop :=
| turns_done (first : nat) (w : world) :
    turns first 0 w (Ok tt) w
| turns_abort (first count : nat) (w w1 : world) (e : exn) :
    turn first w (Raise e) w1 ->
    turns first (S count) w (Raise e) w1
| turns_next (first count : nat) (w w1 w2 : world) (r : outcome unit) :
    turn first w (Ok tt) w1 ->
    turns (S first) count w1 r w2 ->
    turns first (S count) w r w2.

(** The whole run: the schema first, then one iteration per user; nothing
    follows a schema initialisation that raises. *)
Inductive orchestrated (w : world) : outcome unit -> world -> Prop :=
| orchestrated_schema_raises (e : exn) (w1 : world) :
    create_tables db_fault self w = (Raise e, w1) ->
    orchestrated w (Raise e) w1
| orchestrated_turns (r : outcome unit) (w1 w2 : world) :
    create_tables db_fault self w = (Ok tt, w1) ->
    turns 0 (Z.to_nat num_users) w1 r w2 ->
    orchestrated w r w2.

End Orchestrated.

(** ** Further vocabulary *)

(** Every table of [cat] is in [cat'], unchanged. *)
Definition tables_kept (cat cat' : catalog) : Prop :=
  forall name t, assoc name cat = Some t -> assoc name cat' = Some t.

(** A database on which [create_tables] fails: its [users] table has no
    user_id key for [accounts] to refer to. *)
Definition legacy : world :=
  {| tables := [("users",
                 {| tbl_columns := [ {| col_name := "name"; col_type := Varchar 100;
                                        col_primary_key := false;
                                        col_references := None |} ];
                    tbl_rows := [[PyStr "Ada"]] |})];
     sequences := []; session := None; trace := [] |}.

(** The parameter tuple of the user insert of [insert_data], evaluated
    from left to right. *)
Definition user_tuple (user_data : value) : outcome (list value) :=
  obind (subscript user_data "name") (fun name =>
  obind (subscript user_data "age") (fun age =>
  obind (subscript user_data "occupation") (fun occupation =>
  obind (subscript user_data "income_bracket") (fun income_bracket =>
  Ok [name; age; occupation; income_bracket])))).

(** A profile without an age. *)
Definition ageless : value :=
  PyDict [("name", PyStr "Jane Doe"); ("occupation", PyStr "Engineer");
          ("income_bracket", PyStr "75k-100k")].

(** The parameter tuple of the insert of one account, evaluated from left
    to right. *)
Definition account_tuple (user_id account : value) : outcome (list value) :=
  obind (subscript account "account_type") (fun account_type =>
  obind (subscript account "institution") (fun institution =>
  obind (subscript account "current_balance") (fun current_balance =>
  Ok [user_id; account_type; institution; current_balance]))).

(** What [insert_data] sent for one account: the insert carried the
    identifier of the user and the three fields of the account; the bulk
    insert carried one tuple per element of [transactions_data], in order,
    made of the identifier returned for the account and the five fields of
    that element; and each tuple gave one row. *)
Definition sent_account (user_id transactions_data account : value)
  (x : written_account) : Prop :=
  account_tuple user_id account = Ok (user_id :: wa_details x) /\
  (exists txns,
      iterate transactions_data = Ok txns /\
      omap (transaction_tuple (wa_id x)) txns = Ok (wa_argslist x)) /\
  length (wa_transactions x) = length (wa_argslist x).

(** [row], a row of table [tn], has under [cn] the value that some row of
    table [tn'] has under [cn']. *)
Definition refers (cat : catalog) (tn cn : string) (row : list value)
  (tn' cn' : string) : Prop :=
  exists row' v,
    In row' (rows_of cat tn') /\
    field cat tn cn row = Some v /\
    field cat tn' cn' row' = Some v.

(** Every account row refers to a user row and every transaction row to an
    account row. *)
Definition intact (cat : catalog) : Prop :=
  (forall row, In row (rows_of cat "accounts") ->
               refers cat "accounts" "user_id" row "users" "user_id") /\
  (forall row, In row (rows_of cat "transactions") ->
               refers cat "transactions" "account_id" row "accounts" "account_id").

(** A computation that maintains a property of the committed tables. *)
Definition maintains {A : Type} (P : catalog -> Prop) (m : M A) : Prop :=
  forall w, P (tables w) -> P (tables (snd (m w))).

(** A computation that, when it raises, leaves the committed tables as it
    found them. *)
Definition atomic {A : Type} (m : M A) : Prop :=
  forall w e w', m w = (Raise e, w') -> tables w' = tables w.

(** A database whose connection fails at the twentieth call after a blank
    start: in the stubbed run, at the insert of the second account. *)
Definition flaky (t : nat) : option exn :=
  if Nat.eqb t 20 then Some OperationalError else None.

(** The first turn of the stubbed run on that database. *)
Definition interrupted_turn : outcome unit * world :=
  generate_user stub_llm stub_loads flaky (init []) 1 0 ready.

(** The line that reports a user as completed. *)
Definition is_completion (ev : event) : bool :=
  match ev with
  | EvPrint (Lit a :: _) => String.eqb a "Completed user "
  | _ => false
  end.

(** Counts the completion lines. *)
Definition tally (count : nat) (ev : event) : option nat :=
  Some (if is_completion ev then S count else count).

(** The rows of the three tables of [cat'] are those of [cat] followed by
    the given ones. *)
Definition rows_added (cat cat' : catalog) (us accs ts : list (list value)) : Prop :=
  rows_of cat' "users" = rows_of cat "users" ++ us /\
  rows_of cat' "accounts" = rows_of cat "accounts" ++ accs /\
  rows_of cat' "transactions" = rows_of cat "transactions" ++ ts.

(** How the program may use its database connection, as an automaton on
    whether one is open: a connection is opened only when none is, closed
    only when one is; cursor calls, statements and commits need one; model
    requests and progress lines are made with none. *)
Definition connection_discipline (open : bool) (ev : event) : option bool :=
  match ev with
  | EvConnect _ => if open then None else Some true
  | EvConnClose => if open then Some false else None
  | EvCursor | EvExecute _ _ | EvFetchone | EvExecuteValues _ _
  | EvCommit _ | EvCursorClose => if open then Some true else None
  | EvPrint _ | EvMessagesCreate _ => if open then None else Some false
  end.

Definition holds_connection (p : phase) : bool :=
  match p with
  | PSchema _ _ | PPersist _ _ _ => true
  | _ => false
  end.

(** A computation that, started with no connection, ends with none. *)
Definition releases {A : Type} (m : M A) : Prop :=
  forall w, session w = None -> session (snd (m w)) = None.

(** The accounts wrapped in an object, as a model may well reply. *)
Definition wrapped_accounts : value := PyDict [("accounts", PyList [checking; savings])].

Definition wrapping_llm (t : nat) (req : request) : outcome string :=
  if Z.eqb (max_tokens req) 300 then Ok (dumps jane) else Ok (dumps wrapped_accounts).

Definition wrapping_loads : string -> outcome value :=
  decode_known [jane; wrapped_accounts].

Fixpoint params_eqb (a b : list (string * string)) : bool :=
  match a, b with
  | [], [] => true
  | (k, v) :: a', (k', v') :: b' =>
      String.eqb k k' && String.eqb v v' && params_eqb a' b'
  | _, _ => false
  end.

(** The events of a run other than the completion lines, a connection
    counting only when made with the parameters of the generator. *)
Definition routine (self : generator) (ev : event) : bool :=
  match ev with
  | EvConnect p => params_eqb p (db_params self)
  | _ => negb (is_completion ev)
  end.

(** Accepts every event but a connection made with other parameters. *)
Definition configured (params : list (string * string)) (u : unit) (ev : event)
  : option unit :=
  match ev with
  | EvConnect p => if params_eqb p params then Some tt else None
  | _ => Some tt
  end.

(** The connections among a list of events, by their parameters. *)
Definition connections (evs : list event) : list (list (string * string)) :=
  flat_map (fun ev => match ev with EvConnect p => [p] | _ => [] end) evs.

(** The program run as a script: the body of [if __name__ == "__main__"]. *)
Definition main (llm : nat -> request -> outcome string)
  (json_loads : string -> outcome value) (db_fault : nat -> option exn)
  (environ : list (string * string)) : M unit :=
  generate_all_data llm json_loads db_fault (init environ) 100.

(** The world after the progress line and the first two requests of a
    turn. *)
Definition accounts_requested (num_users : Z) (i : nat) (income : value) (w : world)
  : world :=
  {| tables := tables w; sequences := sequences w; session := session w;
     trace := trace w ++ [EvPrint (started_line num_users i);
                          EvMessagesCreate profile_request;
                          EvMessagesCreate (accounts_request income)] |}.

(** A model that returns Jane Doe and then an empty list of accounts. *)
Definition accountless_llm (t : nat) (req : request) : outcome string :=
  if Z.eqb (max_tokens req) 300 then Ok (dumps jane) else Ok (dumps (PyList [])).
(** * Properties *)

(** ** Association lists *)

Lemma assoc_set_same {A : Type} (k : string) (v : A) (l : list (string * A)) :
  assoc k (assoc_set k v l) = Some v.
Proof.
  induction l as [|[k' v'] l IH]; simpl.
  - now rewrite String.eqb_refl.
  - destruct (String.eqb k k') eqn:E; simpl.
    + now rewrite String.eqb_refl.
    + now rewrite E.
Qed.

Lemma assoc_set_other {A : Type} (k k' : string) (v : A) (l : list (string * A)) :
  k' <> k -> assoc k' (assoc_set k v l) = assoc k' l.
Proof.
  intros Hne. induction l as [|[k0 v0] l IH]; simpl.
  - destruct (String.eqb_spec k' k); [contradiction | reflexivity].
  - destruct (String.eqb_spec k k0) as [->|Hk]; simpl.
    + destruct (String.eqb_spec k' k0); [contradiction | reflexivity].
    + destruct (String.eqb_spec k' k0); [reflexivity | exact IH].
Qed.

Lemma assoc_app {A : Type} (k : string) (l l' : list (string * A)) :
  assoc k (l ++ l') =
  match assoc k l with
  | Some v => Some v
  | None => assoc k l'
  end.
Proof.
  induction l as [|[k' v'] l IH]; simpl; [reflexivity|].
  destruct (String.eqb k k'); [reflexivity | exact IH].
Qed.

Lemma assoc_none_not_in {A : Type} (k : string) (l : list (string * A)) :
  assoc k l = None -> ~ In k (map fst l).
Proof.
  induction l as [|[k' v'] l IH]; simpl; intros H; [tauto|].
  destruct (String.eqb_spec k k') as [->|Hk]; [discriminate|].
  intros [Hin|Hin]; [congruence | now apply IH].
Qed.

(** ** The monad *)

Lemma bind_ok {A B : Type} (m : M A) (k : A -> M B) (w w' : world) (b : B) :
  bind m k w = (Ok b, w') ->
  exists a w1, m w = (Ok a, w1) /\ k a w1 = (Ok b, w').
Proof.
  unfold bind. destruct (m w) as [[a|e] w1]; intros H; [eauto | discriminate].
Qed.

Lemma lift_ok {A : Type} (o : outcome A) (w w' : world) (a : A) :
  lift o w = (Ok a, w') -> o = Ok a /\ w' = w.
Proof. unfold lift. intros H. inversion H. auto. Qed.

Lemma bind_run {A B : Type} (m : M A) (k : A -> M B) (w w1 : world) (a : A) :
  m w = (Ok a, w1) -> bind m k w = k a w1.
Proof. unfold bind. now intros ->. Qed.

Lemma bind_raise {A B : Type} (m : M A) (k : A -> M B) (w w1 : world) (e : exn) :
  m w = (Raise e, w1) -> bind m k w = (Raise e, w1).
Proof. unfold bind. now intros ->. Qed.

(** ** Configuration from the environment *)

(** C8: the connection parameters are exactly dbname, user, password, host
    and port; each one is the value of its own environment variable
    (DB_NAME, DB_USER, DB_PASSWORD, DB_HOST, DB_PORT) when that variable is
    set and the documented default otherwise, whatever the other variables
    hold. *)
Theorem init_db_params_from_environment (environ : list (string * string)) :
  map fst (db_params (init environ)) = map fst documented_parameters /\
  Forall (fun entry =>
            let '(param, (variable, default)) := entry in
            assoc param (db_params (init environ)) =
            Some (match assoc variable environ with
                  | Some v => v
                  | None => default
                  end))
         documented_parameters.
Proof.
  split; [reflexivity|].
  unfold documented_parameters.
  repeat (apply Forall_cons; [reflexivity|]).
  constructor.
Qed.

(** ** Generation requests *)

Section Generation.

Variable llm : nat -> request -> outcome string.
Variable json_loads : string -> outcome value.

Lemma messages_create_run (req : request) (w : world) :
  messages_create llm req w =
  (llm (clock w) req,
   {| tables := tables w; sequences := sequences w; session := session w;
      trace := trace w ++ [EvMessagesCreate req] |}).
Proof. reflexivity. Qed.

(** C10: the index passed to [generate_user_profile] reaches neither
    the request nor the result: two calls that differ only in the index
    are the same computation; the one request sent is the fixed profile
    request, and the result is the decoded reply to it. *)
Theorem generate_user_profile_ignores_index (self : generator) (i j : Z) (w : world) :
  generate_user_profile llm json_loads self i w =
  generate_user_profile llm json_loads self j w /\
  trace (snd (generate_user_profile llm json_loads self i w)) =
  trace w ++ [EvMessagesCreate profile_request] /\
  fst (generate_user_profile llm json_loads self i w) =
  obind (llm (clock w) profile_request) json_loads.
Proof.
  split; [reflexivity|].
  unfold generate_user_profile, bind, lift. rewrite messages_create_run.
  destruct (llm (clock w) profile_request); auto.
Qed.

(** C7: every request sent by a generation call carries the fixed
    configuration of its tier: profile generation sends exactly one
    request with max_tokens 300 and temperature 0.7; accounts generation
    sends its one request with max_tokens 500 and temperature 0.7;
    transactions generation sends its one request with max_tokens 1000
    and temperature 0.7.  (The latter two send nothing when a key needed
    by their prompt is missing.) *)
Theorem generation_requests_use_tier_config
  (self : generator) (index : Z) (user_profile account : value) (w : world) :
  (exists req,
      trace (snd (generate_user_profile llm json_loads self index w)) =
      trace w ++ [EvMessagesCreate req] /\ tier_config 300 req) /\
  (exists sent,
      trace (snd (generate_accounts llm json_loads self user_profile w)) =
      trace w ++ map EvMessagesCreate sent /\
      Forall (tier_config 500) sent /\
      (length sent <= 1)%nat /\
      (forall income, subscript user_profile "income_bracket" = Ok income ->
                      sent = [accounts_request income])) /\
  (exists sent,
      trace (snd (generate_transactions llm json_loads self account user_profile w)) =
      trace w ++ map EvMessagesCreate sent /\
      Forall (tier_config 1000) sent /\
      (length sent <= 1)%nat /\
      (forall kind balance income,
          subscript account "account_type" = Ok kind ->
          subscript account "current_balance" = Ok balance ->
          subscript user_profile "income_bracket" = Ok income ->
          sent = [transactions_request kind balance income])).
Proof.
  split; [|split].
  - exists profile_request. split; [|split; reflexivity].
    unfold generate_user_profile, bind, lift. rewrite messages_create_run.
    destruct (llm (clock w) profile_request); reflexivity.
  - unfold generate_accounts, bind, lift.
    destruct (subscript user_profile "income_bracket") as [income|e] eqn:E.
    + exists [accounts_request income]. rewrite messages_create_run.
      split; [destruct (llm (clock w) (accounts_request income)); reflexivity|].
      split; [repeat constructor|]. split; [simpl; lia|].
      intros income' H. now inversion H.
    + exists []. simpl. rewrite app_nil_r.
      repeat split; [constructor | lia | discriminate].
  - unfold generate_transactions, bind, lift.
    destruct (subscript account "account_type") as [kind|e1] eqn:E1;
      [destruct (subscript account "current_balance") as [balance|e2] eqn:E2;
       [destruct (subscript user_profile "income_bracket") as [income|e3] eqn:E3|]|].
    + exists [transactions_request kind balance income]. rewrite messages_create_run.
      split; [destruct (llm (clock w) (transactions_request kind balance income));
              reflexivity|].
      split; [repeat constructor|]. split; [simpl; lia|].
      intros k b i Hk Hb Hi. inversion Hk; inversion Hb; inversion Hi. reflexivity.
    + exists []. simpl. rewrite app_nil_r.
      repeat split; [constructor | lia | discriminate].
    + exists []. simpl. rewrite app_nil_r.
      repeat split; [constructor | lia | discriminate].
    + exists []. simpl. rewrite app_nil_r.
      repeat split; [constructor | lia | discriminate].
Qed.

(** C6, as amended: the value returned by the accounts-generation step is
    the decoded reply of the remote model to a request with the accounts
    configuration, passed on unchanged; so it is a list of two to four
    accounts of the four kinds exactly when the decoded reply is one. *)
Theorem generate_accounts_returns_decoded_reply
  (self : generator) (user_profile v : value) (w w' : world) :
  generate_accounts llm json_loads self user_profile w = (Ok v, w') ->
  exists income text,
    subscript user_profile "income_bracket" = Ok income /\
    llm (clock w) (accounts_request income) = Ok text /\
    json_loads text = Ok v /\
    (accounts_well_formed v <->
     exists decoded, json_loads text = Ok decoded /\ accounts_well_formed decoded).
Proof.
  unfold generate_accounts. intros H.
  apply bind_ok in H as (income & w1 & Hi & H).
  apply lift_ok in Hi as [Hi ->].
  apply bind_ok in H as (text & w2 & Ht & H).
  rewrite messages_create_run in Ht. inversion Ht; subst; clear Ht.
  apply lift_ok in H as [H _].
  exists income, text. repeat split; auto.
  - intros Hv. exists v. auto.
  - intros (d & Hd & Hwf). congruence.
Qed.

End Generation.

(** The claim that every reply yields two to four accounts fails when the
    remote model answers with an empty array. *)
Lemma generate_accounts_not_always_well_formed :
  exists v w',
    generate_accounts empty_llm stub_loads (init []) jane blank = (Ok v, w') /\
    ~ accounts_well_formed v.
Proof.
  exists (PyList []). eexists. split; [vm_compute; reflexivity|].
  intros (items & Hv & Hlen & _). inversion Hv; subst. simpl in Hlen. lia.
Qed.

Lemma generate_accounts_returns_decoded_reply_witness :
  exists income text,
    subscript jane "income_bracket" = Ok income /\
    stub_llm (clock blank) (accounts_request income) = Ok text /\
    stub_loads text = Ok (PyList [checking; savings]) /\
    (accounts_well_formed (PyList [checking; savings]) <->
     exists decoded, stub_loads text = Ok decoded /\ accounts_well_formed decoded).
Proof.
  apply (generate_accounts_returns_decoded_reply stub_llm stub_loads (init []) jane
           (PyList [checking; savings]) blank
           (snd (generate_accounts stub_llm stub_loads (init []) jane blank))).
  vm_compute. reflexivity.
Defined.

(** ** The database driver *)

Section Driver.

Variable db_fault : nat -> option exn.

Lemma close_run (w : world) :
  (cur_close ;; conn_close) w = (Ok tt, closed w).
Proof.
  unfold bind, cur_close, conn_close, closed, emit, with_session; simpl.
  destruct (session w); simpl; now rewrite <- app_assoc.
Qed.

Lemma try_finally_close {A : Type} (body : M A) (w : world) :
  try_finally body (cur_close ;; conn_close) w =
  (fst (body w), closed (snd (body w))).
Proof.
  unfold try_finally. destruct (body w) as [r w1]. now rewrite close_run.
Qed.

Lemma open_run (params : list (string * string)) (w : world) :
  db_fault (clock w) = None ->
  (psycopg2_connect db_fault params ;; conn_cursor) w = (Ok tt, opened params w).
Proof.
  intros Hf. unfold bind, psycopg2_connect, conn_cursor, opened, emit, with_session.
  simpl. rewrite Hf. simpl. now rewrite <- app_assoc.
Qed.

(** What a connection-then-body-then-close function does, by cases on the
    connection attempt. *)
Lemma connected_run {A : Type} (params : list (string * string)) (body : M A)
  (w : world) :
  db_fault (clock w) = None ->
  (psycopg2_connect db_fault params ;; conn_cursor ;;
   try_finally body (cur_close ;; conn_close)) w =
  (fst (body (opened params w)), closed (snd (body (opened params w)))).
Proof.
  intros Hf.
  assert (H := open_run params w Hf). unfold bind in *.
  destruct (psycopg2_connect db_fault params w) as [[[]|e] w1]; [|discriminate].
  destruct (conn_cursor w1) as [[[]|e] w2]; [|discriminate].
  inversion H; subst. apply try_finally_close.
Qed.

Lemma connected_fail {A : Type} (params : list (string * string)) (body : M A)
  (w : world) (e : exn) :
  db_fault (clock w) = Some e ->
  (psycopg2_connect db_fault params ;; conn_cursor ;;
   try_finally body (cur_close ;; conn_close)) w = (Raise e, refused params w).
Proof.
  intros Hf. unfold bind, psycopg2_connect, emit, refused. simpl. now rewrite Hf.
Qed.

Lemma cur_execute_run (sql : statement) (params : list value) (w : world)
  (cat : catalog) :
  in_session w cat ->
  cur_execute db_fault sql params w =
  match db_fault (clock w) with
  | Some e => (Raise e, snd (emit (EvExecute sql params) w))
  | None =>
      match run_statement cat (sequences w) sql params with
      | Raise e => (Raise e, snd (emit (EvExecute sql params) w))
      | Ok (cat', seqs, res) => (Ok tt, executed (EvExecute sql params) cat' seqs res w)
      end
  end.
Proof.
  intros [res Hs]. unfold cur_execute, executed. simpl. rewrite Hs. simpl.
  destruct (db_fault (clock w)); [reflexivity|].
  destruct (run_statement cat (sequences w) sql params) as [[[c s] r]|e]; reflexivity.
Qed.

Lemma commit_run (w : world) (cat : catalog) :
  in_session w cat ->
  conn_commit db_fault w =
  match db_fault (clock w) with
  | Some e => (Raise e, snd (emit (EvCommit false) w))
  | None => (Ok tt, {| tables := cat; sequences := sequences w; session := session w;
                       trace := trace w ++ [EvCommit true] |})
  end.
Proof.
  intros [res Hs]. unfold conn_commit. rewrite Hs. simpl.
  destruct (db_fault (clock w)); reflexivity.
Qed.

Lemma in_session_opened (params : list (string * string)) (w : world) :
  in_session (opened params w) (tables w).
Proof. now exists None. Qed.

Lemma in_session_executed (ev : event) (cat : catalog) (seqs : counters)
  (res : option (list value)) (w : world) :
  in_session (executed ev cat seqs res w) cat.
Proof. now exists res. Qed.

Lemma clock_opened (params : list (string * string)) (w : world) :
  clock (opened params w) = (clock w + 2)%nat.
Proof. unfold clock, opened; simpl. now rewrite length_app. Qed.

Lemma clock_executed (ev : event) (cat : catalog) (seqs : counters)
  (res : option (list value)) (w : world) :
  clock (executed ev cat seqs res w) = (clock w + 1)%nat.
Proof. unfold clock, executed; simpl. now rewrite length_app. Qed.

End Driver.

(** ** Schema initialisation *)

Lemma create_table_present (cat : catalog) (seqs : counters) (name : string)
  (cols : list column) :
  assoc name cat <> None -> create_table cat seqs name cols = Ok (cat, seqs).
Proof.
  unfold create_table. destruct (assoc name cat); [reflexivity | congruence].
Qed.

Lemma create_table_ok (cat cat' : catalog) (seqs seqs' : counters) (name : string)
  (cols : list column) :
  create_table cat seqs name cols = Ok (cat', seqs') ->
  assoc name cat' <> None /\
  (forall n, assoc n cat <> None -> assoc n cat' <> None) /\
  (NoDup (map fst cat) -> NoDup (map fst cat')).
Proof.
  unfold create_table. destruct (assoc name cat) as [t|] eqn:E.
  - intros H; inversion H; subst. rewrite E. repeat split; auto. discriminate.
  - destruct (forallb (references_ok cat) cols); [|discriminate].
    intros H; inversion H; subst; clear H. repeat split.
    + rewrite assoc_app, E. simpl. rewrite String.eqb_refl. discriminate.
    + intros n Hn. rewrite assoc_app. destruct (assoc n cat); [discriminate | congruence].
    + intros Hnd. rewrite map_app. simpl.
      apply NoDup_app; [exact Hnd | repeat constructor; simpl; tauto |].
      intros x Hx [<-|[]]. now apply (assoc_none_not_in _ _ E).
Qed.

Section Schema.

Variable db_fault : nat -> option exn.

Lemma execute_create_ok (name : string) (cols : list column) (w w' : world)
  (cat : catalog) :
  in_session w cat ->
  cur_execute db_fault (CreateTableIfNotExists name cols) [] w = (Ok tt, w') ->
  exists cat' seqs',
    create_table cat (sequences w) name cols = Ok (cat', seqs') /\
    w' = executed (EvExecute (CreateTableIfNotExists name cols) []) cat' seqs' None w.
Proof.
  intros Hs H. rewrite (cur_execute_run _ _ _ _ _ Hs) in H.
  destruct (db_fault (clock w)); [discriminate|].
  unfold run_statement in H.
  destruct (create_table cat (sequences w) name cols) as [[c s]|e]; simpl in H;
    [|discriminate].
  inversion H. eauto.
Qed.

Lemma execute_create_present (name : string) (cols : list column) (w : world)
  (cat : catalog) :
  in_session w cat ->
  db_fault (clock w) = None ->
  assoc name cat <> None ->
  cur_execute db_fault (CreateTableIfNotExists name cols) [] w =
  (Ok tt, executed (EvExecute (CreateTableIfNotExists name cols) []) cat
                   (sequences w) None w).
Proof.
  intros Hs Hf Hp. rewrite (cur_execute_run _ _ _ _ _ Hs), Hf.
  unfold run_statement. now rewrite (create_table_present _ _ _ _ Hp).
Qed.

(** C4: when a first [create_tables] has succeeded, a second one on the
    resulting database succeeds too (the server staying reachable) and
    leaves the tables and the sequence counters exactly as the first call
    left them: [users], [accounts] and [transactions] exist, no table
    name occurs twice, and a database that was empty holds exactly these
    three tables. *)
Theorem create_tables_idempotent (self : generator) (w w1 : world) :
  create_tables db_fault self w = (Ok tt, w1) ->
  (forall t, (clock w1 <= t)%nat -> db_fault t = None) ->
  exists w2,
    create_tables db_fault self w1 = (Ok tt, w2) /\
    tables w2 = tables w1 /\
    sequences w2 = sequences w1 /\
    Forall (fun name => assoc name (tables w2) <> None) schema_tables /\
    (NoDup (map fst (tables w)) -> NoDup (map fst (tables w2))) /\
    (tables w = [] -> map fst (tables w2) = schema_tables).
Proof.
  intros H Hnf. unfold create_tables in *.
  destruct (db_fault (clock w)) as [e|] eqn:Hf.
  { rewrite (connected_fail _ _ _ _ _ Hf) in H. discriminate. }
  rewrite (connected_run _ _ _ _ Hf) in H.
  match type of H with (fst ?x, _) = _ => destruct x as [r wb] eqn:Hb end.
  simpl in H. inversion H; subst r w1; clear H.
  apply bind_ok in Hb as ([] & wa & Ha & Hb).
  apply (execute_create_ok _ _ _ _ _ (in_session_opened _ _)) in Ha
    as (cat1 & seqs1 & Hc1 & ->).
  apply bind_ok in Hb as ([] & wa & Ha & Hb).
  apply (execute_create_ok _ _ _ _ _ (in_session_executed _ _ _ _ _)) in Ha
    as (cat2 & seqs2 & Hc2 & ->).
  apply bind_ok in Hb as ([] & wa & Ha & Hb).
  apply (execute_create_ok _ _ _ _ _ (in_session_executed _ _ _ _ _)) in Ha
    as (cat3 & seqs3 & Hc3 & ->).
  rewrite (commit_run _ _ _ (in_session_executed _ _ _ _ _)) in Hb.
  destruct (db_fault _) in Hb; [discriminate|].
  inversion Hb; subst wb; clear Hb. simpl in Hc1, Hc2, Hc3.
  destruct (create_table_ok _ _ _ _ _ _ Hc1) as (Hu1 & Hk1 & Hd1).
  destruct (create_table_ok _ _ _ _ _ _ Hc2) as (Ha2 & Hk2 & Hd2).
  destruct (create_table_ok _ _ _ _ _ _ Hc3) as (Ht3 & Hk3 & Hd3).
  assert (Hblank : tables w = [] -> map fst cat3 = schema_tables).
  { intros Hempty. rewrite Hempty in *. clear - Hc1 Hc2 Hc3.
    vm_compute in Hc1. inversion Hc1; subst cat1 seqs1; clear Hc1.
    unfold create_table in Hc2. simpl in Hc2. inversion Hc2; subst cat2 seqs2; clear Hc2.
    unfold create_table in Hc3. simpl in Hc3. inversion Hc3; subst cat3. reflexivity. }
  set (w1 := closed _) in *.
  assert (Htab : tables w1 = cat3) by reflexivity.
  assert (Hseq : sequences w1 = seqs3) by reflexivity.
  rewrite (connected_run _ _ _ _ (Hnf _ (le_n _))).
  set (o := opened (db_params self) w1).
  assert (Ho : in_session o cat3) by (rewrite <- Htab; apply in_session_opened).
  assert (Hco : clock o = (clock w1 + 2)%nat) by apply clock_opened.
  unfold bind, create_users, create_accounts, create_transactions.
  rewrite (execute_create_present _ _ _ _ Ho) by (auto; apply Hnf; lia).
  set (x1 := executed _ _ _ _ o).
  assert (Hx1 : clock x1 = (clock w1 + 3)%nat)
    by (unfold x1; rewrite clock_executed; lia).
  rewrite (execute_create_present _ _ x1 cat3)
    by (auto; try apply in_session_executed; apply Hnf; lia).
  set (x2 := executed _ _ _ _ x1).
  assert (Hx2 : clock x2 = (clock w1 + 4)%nat)
    by (unfold x2; rewrite clock_executed; lia).
  rewrite (execute_create_present _ _ x2 cat3)
    by (auto; try apply in_session_executed; apply Hnf; lia).
  set (x3 := executed _ _ _ _ x2).
  assert (Hx3 : clock x3 = (clock w1 + 5)%nat)
    by (unfold x3; rewrite clock_executed; lia).
  rewrite (commit_run _ x3 cat3) by apply in_session_executed.
  rewrite (Hnf (clock x3)) by lia.
  eexists. split; [reflexivity|]. simpl.
  split; [reflexivity|]. split; [reflexivity|].
  split; [repeat constructor; auto|].
  split; auto.
Qed.

End Schema.

Lemma create_tables_idempotent_witness :
  exists w2,
    create_tables no_fault (init []) ready = (Ok tt, w2) /\
    tables w2 = tables ready /\
    sequences w2 = sequences ready /\
    Forall (fun name => assoc name (tables w2) <> None) schema_tables /\
    (NoDup (map fst (tables blank)) -> NoDup (map fst (tables w2))) /\
    (tables blank = [] -> map fst (tables w2) = schema_tables).
Proof.
  apply (create_tables_idempotent no_fault (init []) blank ready).
  - vm_compute. reflexivity.
  - reflexivity.
Defined.

(** ** Rows *)

Lemma combine_keys_in {A : Type} (k : string) (v : A) (ks : list string) (vs : list A) :
  assoc k (combine ks vs) = Some v -> In k ks.
Proof.
  revert vs. induction ks as [|k0 ks IH]; intros [|v0 vs]; simpl; try discriminate.
  destruct (String.eqb_spec k k0) as [->|Hk]; intros H; [now left | right; eauto].
Qed.

Lemma existsb_eqb_in (k : string) (l : list string) :
  existsb (String.eqb k) l = true -> In k l.
Proof.
  intros H. apply existsb_exists in H as (x & Hx & He).
  apply String.eqb_eq in He. now subst.
Qed.

Lemma build_row_given (tn : string) (cols : list column) (given : list (string * value))
  (seqs : counters) (cn : string) (v : value) :
  assoc cn given = Some v ->
  In cn (map col_name cols) ->
  assoc cn (combine (map col_name cols) (fst (build_row tn cols given seqs))) = Some v.
Proof.
  intros Hg. revert seqs. induction cols as [|c cols IH]; intros seqs Hin; [contradiction|].
  simpl.
  destruct (String.eqb_spec cn (col_name c)) as [Hc|Hc].
  - rewrite <- Hc, Hg.
    destruct (build_row tn cols given seqs) as [vs s2]. simpl.
    now rewrite String.eqb_refl.
  - destruct Hin as [Hin|Hin]; [congruence|].
    match goal with
    | |- context [let '(_, _) := ?X in _] => destruct X as [v1 s1]
    end.
    specialize (IH s1 Hin).
    destruct (build_row tn cols given s1) as [vs s2]. simpl in *.
    destruct (String.eqb_spec cn (col_name c)); [contradiction | exact IH].
Qed.

Lemma appended_refl (cat : catalog) (tn : string) : appended cat cat tn [].
Proof. unfold appended. rewrite app_nil_r. auto. Qed.

Lemma appended_trans (cat1 cat2 cat3 : catalog) (tn : string)
  (rows1 rows2 : list (list value)) :
  appended cat1 cat2 tn rows1 -> appended cat2 cat3 tn rows2 ->
  appended cat1 cat3 tn (rows1 ++ rows2).
Proof.
  intros (Ha & Hb & Hc) (Ha' & Hb' & Hc'). repeat split.
  - now rewrite Ha', Ha, app_assoc.
  - intros tn' Hne. now rewrite Hb', Hb.
  - intros tn'. now rewrite Hc', Hc.
Qed.

Lemma field_appended (cat cat' : catalog) (tn tn' cn : string)
  (rows : list (list value)) (row : list value) :
  appended cat cat' tn rows -> field cat' tn' cn row = field cat tn' cn row.
Proof. intros (_ & _ & Hc). unfold field. now rewrite Hc. Qed.

Lemma insert_row_ok (cat cat' : catalog) (seqs seqs' : counters) (tn : string)
  (cols : list string) (args row : list value) :
  insert_row cat seqs tn cols args = Ok (cat', seqs', row) ->
  appended cat cat' tn [row] /\ holds_bound cat tn cols args row.
Proof.
  unfold insert_row. destruct (assoc tn cat) as [t|] eqn:Et; [|discriminate].
  destruct (forallb _ cols) eqn:Ecols; simpl; [|discriminate].
  destruct (Nat.eqb (length cols) (length args)); simpl; [|discriminate].
  destruct (build_row tn (tbl_columns t) (combine cols args) seqs) as [r s] eqn:Eb.
  destruct (constraints_ok cat t r); [|discriminate].
  intros H; inversion H; subst; clear H. split; [repeat split|].
  - unfold rows_of. now rewrite assoc_set_same, Et.
  - intros tn' Hne. unfold rows_of. now rewrite assoc_set_other.
  - intros tn'. unfold columns_of.
    destruct (String.eqb_spec tn' tn) as [->|Hne].
    + now rewrite assoc_set_same, Et.
    + now rewrite assoc_set_other.
  - intros cn v Hg. unfold field, columns_of. rewrite Et. unfold column_names.
    replace row with (fst (build_row tn (tbl_columns t) (combine cols args) seqs))
      by now rewrite Eb.
    apply build_row_given; [exact Hg|].
    apply combine_keys_in in Hg.
    rewrite forallb_forall in Ecols. apply existsb_eqb_in. now apply Ecols.
Qed.

Lemma run_values_ok (tn : string) (cols : list string) (argslist : list (list value)) :
  forall (cat cat' : catalog) (seqs seqs' : counters),
    run_values cat seqs tn cols argslist = Ok (cat', seqs') ->
    exists rows,
      appended cat cat' tn rows /\
      Forall2 (holds_bound cat tn cols) argslist rows.
Proof.
  induction argslist as [|args rest IH]; intros cat cat' seqs seqs'; simpl.
  - intros H; inversion H; subst. exists []. split; [apply appended_refl | constructor].
  - destruct (insert_row cat seqs tn cols args) as [[[c1 s1] row]|e] eqn:Ei; simpl;
      [|discriminate].
    intros H. destruct (insert_row_ok _ _ _ _ _ _ _ _ Ei) as (Happ & Hb).
    destruct (IH _ _ _ _ H) as (rows & Happ' & Hall).
    exists (row :: rows). split.
    + apply (appended_trans _ _ _ _ _ _ Happ Happ').
    + constructor; [exact Hb|].
      eapply Forall2_impl; [|exact Hall].
      intros a r Hh cn v Hg. rewrite <- (field_appended _ _ _ _ _ _ _ Happ). now apply Hh.
Qed.

Lemma grown_refl (cat : catalog) : grown cat cat [] [] [].
Proof. unfold grown. rewrite !app_nil_r. auto. Qed.

Lemma grown_trans (cat1 cat2 cat3 : catalog) (us1 as1 ts1 us2 as2 ts2 : list (list value)) :
  grown cat1 cat2 us1 as1 ts1 -> grown cat2 cat3 us2 as2 ts2 ->
  grown cat1 cat3 (us1 ++ us2) (as1 ++ as2) (ts1 ++ ts2).
Proof.
  intros (Hu & Ha & Ht & Hc) (Hu' & Ha' & Ht' & Hc'). repeat split.
  - now rewrite Hu', Hu, app_assoc.
  - now rewrite Ha', Ha, app_assoc.
  - now rewrite Ht', Ht, app_assoc.
  - intros tn. now rewrite Hc', Hc.
Qed.

Lemma grown_users (cat cat' : catalog) (rows : list (list value)) :
  appended cat cat' "users" rows -> grown cat cat' rows [] [].
Proof.
  intros (Ha & Hb & Hc). unfold grown. rewrite !app_nil_r.
  repeat split; auto; apply Hb; discriminate.
Qed.

Lemma grown_accounts (cat cat' : catalog) (rows : list (list value)) :
  appended cat cat' "accounts" rows -> grown cat cat' [] rows [].
Proof.
  intros (Ha & Hb & Hc). unfold grown. rewrite !app_nil_r.
  repeat split; auto; apply Hb; discriminate.
Qed.

Lemma grown_transactions (cat cat' : catalog) (rows : list (list value)) :
  appended cat cat' "transactions" rows -> grown cat cat' [] [] rows.
Proof.
  intros (Ha & Hb & Hc). unfold grown. rewrite !app_nil_r.
  repeat split; auto; apply Hb; discriminate.
Qed.

Lemma field_grown (cat cat' : catalog) (us accs ts : list (list value))
  (tn cn : string) (row : list value) :
  grown cat cat' us accs ts -> field cat' tn cn row = field cat tn cn row.
Proof. intros (_ & _ & _ & Hc). unfold field. now rewrite Hc. Qed.

(** ** The persister *)

Section Persister.

Variable db_fault : nat -> option exn.

Lemma execute_insert_ok (tn rc : string) (cols : list string) (params : list value)
  (w w' : world) (cat : catalog) :
  in_session w cat ->
  cur_execute db_fault (InsertInto tn cols (Some rc)) params w = (Ok tt, w') ->
  exists cat' seqs' row v,
    appended cat cat' tn [row] /\
    holds_bound cat tn cols params row /\
    field cat tn rc row = Some v /\
    w' = executed (EvExecute (InsertInto tn cols (Some rc)) params) cat' seqs'
                  (Some [v]) w.
Proof.
  intros Hs H. rewrite (cur_execute_run _ _ _ _ _ Hs) in H.
  destruct (db_fault (clock w)); [discriminate|].
  unfold run_statement in H.
  destruct (insert_row cat (sequences w) tn cols params) as [[[c s] row]|e] eqn:Ei;
    simpl in H; [|discriminate].
  destruct (insert_row_ok _ _ _ _ _ _ _ _ Ei) as (Happ & Hb).
  destruct (assoc tn c) as [t|] eqn:Et; [|discriminate].
  destruct (cell t rc row) as [v|] eqn:Ec; [|discriminate].
  inversion H; subst w'; clear H.
  exists c, s, row, v. repeat split; try apply Happ; auto.
  destruct Happ as (_ & _ & Hc). unfold field. rewrite <- Hc.
  unfold columns_of. rewrite Et. exact Ec.
Qed.

Lemma fetchone_executed (ev : event) (cat : catalog) (seqs : counters)
  (row : list value) (w : world) :
  cur_fetchone (executed ev cat seqs (Some row) w) =
  (Ok row, executed EvFetchone cat seqs None (executed ev cat seqs (Some row) w)).
Proof. reflexivity. Qed.

Lemma execute_values_ok (tn : string) (cols : list string) (r : option string)
  (argslist : list (list value)) (w w' : world) (cat : catalog) :
  in_session w cat ->
  execute_values db_fault (InsertInto tn cols r) argslist w = (Ok tt, w') ->
  exists cat' rows,
    appended cat cat' tn rows /\
    Forall2 (holds_bound cat tn cols) argslist rows /\
    in_session w' cat' /\
    tables w' = tables w /\
    trace w' = trace w ++ [EvExecuteValues (InsertInto tn cols r) argslist].
Proof.
  intros [res Hs] H. unfold execute_values in H. simpl in H. rewrite Hs in H.
  simpl in H. destruct argslist as [|args rest].
  - inversion H; subst w'; clear H. exists cat, [].
    repeat split; try apply appended_refl; auto. now exists res.
  - destruct (db_fault (clock w)); [discriminate|].
    destruct (run_values cat (sequences w) tn cols (args :: rest)) as [[c s]|e] eqn:Er;
      [|discriminate].
    inversion H; subst w'; clear H.
    destruct (run_values_ok _ _ _ _ _ _ _ Er) as (rows & Happ & Hall).
    exists c, rows. repeat split; try apply Happ; auto. now exists None.
Qed.

Lemma transaction_tuple_head (account_id txn : value) (args : list value) :
  transaction_tuple account_id txn = Ok args -> hd_error args = Some account_id.
Proof.
  unfold transaction_tuple.
  destruct (subscript txn "date"); simpl; [|discriminate].
  destruct (subscript txn "amount"); simpl; [|discriminate].
  destruct (subscript txn "category"); simpl; [|discriminate].
  destruct (subscript txn "merchant_name"); simpl; [|discriminate].
  destruct (subscript txn "transaction_type"); simpl; [|discriminate].
  intros H; inversion H. reflexivity.
Qed.

Lemma omap_forall {A B : Type} (f : A -> outcome B) (P : B -> Prop) (l : list A)
  (l' : list B) :
  (forall a b, f a = Ok b -> P b) -> omap f l = Ok l' -> Forall P l'.
Proof.
  intros Hf. revert l'. induction l as [|a l IH]; intros l'; simpl.
  - intros H; inversion H. constructor.
  - destruct (f a) as [b|e] eqn:Ea; simpl; [|discriminate].
    destruct (omap f l) as [bs|e]; simpl; [|discriminate].
    intros H; inversion H; subst. constructor; eauto.
Qed.

(** One turn of the loop over the accounts that does not raise. *)
Lemma insert_account_rows_ok (user_id transactions_data account : value)
  (w w' : world) (cat : catalog) :
  in_session w cat ->
  insert_account_rows db_fault user_id transactions_data account w = (Ok tt, w') ->
  exists cat' x,
    grown cat cat' [] [wa_row x] (wa_transactions x) /\
    linked cat user_id x /\
    in_session w' cat' /\
    tables w' = tables w /\
    trace w' = trace w ++ account_events user_id x.
Proof.
  intros Hs H. unfold insert_account_rows in H.
  apply bind_ok in H as (kind & w1 & H1 & H). apply lift_ok in H1 as [_ ->].
  apply bind_ok in H as (inst & w1 & H1 & H). apply lift_ok in H1 as [_ ->].
  apply bind_ok in H as (bal & w1 & H1 & H). apply lift_ok in H1 as [_ ->].
  apply bind_ok in H as ([] & w1 & H1 & H).
  apply (execute_insert_ok _ _ _ _ _ _ _ Hs) in H1
    as (cat1 & seqs1 & arow & aid & Happ1 & Hb1 & Hid & ->).
  apply bind_ok in H as (row & w2 & H2 & H).
  rewrite fetchone_executed in H2. inversion H2; subst row w2; clear H2.
  apply bind_ok in H as (aid' & w3 & H3 & H). apply lift_ok in H3 as [H3 ->].
  simpl in H3. inversion H3; subst aid'; clear H3.
  apply bind_ok in H as (txns & w3 & H3 & H). apply lift_ok in H3 as [_ ->].
  apply bind_ok in H as (argslist & w3 & H3 & H). apply lift_ok in H3 as [Hargs ->].
  apply (execute_values_ok _ _ _ _ _ _ cat1) in H; [|apply in_session_executed].
  destruct H as (cat2 & trows & Happ2 & Hall & Hs' & Htab & Htr).
  exists cat2,
    {| wa_id := aid; wa_row := arow; wa_transactions := trows;
       wa_details := [kind; inst; bal]; wa_argslist := argslist |}.
  assert (Hheads : Forall (fun args => hd_error args = Some aid) argslist).
  { eapply omap_forall; [|exact Hargs]. intros a b. apply transaction_tuple_head. }
  split; [|split; [|split; [|split]]]; simpl.
  - apply (grown_trans cat cat1 cat2 [] [arow] [] [] [] trows).
    + now apply grown_accounts.
    + now apply grown_transactions.
  - unfold linked; simpl. split; [|split; [|split]].
    + apply Hb1. reflexivity.
    + exact Hid.
    + exact Hheads.
    + clear - Hall Hheads Happ1.
      induction Hall as [|args row argslist rows Hh Hall IH]; constructor.
      * rewrite <- (field_appended _ _ _ "transactions" "account_id" _ row Happ1).
        apply Hh. inversion Hheads as [|? ? Hhd Htl]; subst.
        destruct args as [|a0 args]; [discriminate|]. simpl in Hhd.
        inversion Hhd; subst. simpl. reflexivity.
      * apply IH. now inversion Hheads.
  - exact Hs'.
  - rewrite Htab. reflexivity.
  - rewrite Htr. unfold account_events, executed; simpl.
    now rewrite <- !app_assoc.
Qed.

Lemma linked_grown (cat cat' : catalog) (us accs ts : list (list value))
  (user_id : value) (x : written_account) :
  grown cat cat' us accs ts -> linked cat' user_id x -> linked cat user_id x.
Proof.
  intros Hg (H1 & H2 & H3 & H4). unfold linked.
  rewrite (field_grown _ _ _ _ _ _ _ _ Hg) in H1.
  rewrite (field_grown _ _ _ _ _ _ _ _ Hg) in H2.
  repeat split; auto.
  eapply Forall_impl; [|exact H4]. intros row Hr. cbv beta in Hr.
  now rewrite (field_grown _ _ _ _ _ _ _ _ Hg) in Hr.
Qed.

(** The loop over the accounts, when no turn raises. *)
Lemma insert_accounts_ok (user_id transactions_data : value) (accounts : list value) :
  forall (w w' : world) (cat : catalog),
    in_session w cat ->
    for_each accounts (insert_account_rows db_fault user_id transactions_data) w
    = (Ok tt, w') ->
    exists cat' written,
      length written = length accounts /\
      grown cat cat' [] (map wa_row written) (flat_map wa_transactions written) /\
      Forall (linked cat user_id) written /\
      in_session w' cat' /\
      tables w' = tables w /\
      trace w' = trace w ++ flat_map (account_events user_id) written.
Proof.
  induction accounts as [|account rest IH]; intros w w' cat Hs H; simpl in H.
  - inversion H; subst w'. exists cat, []. simpl. rewrite app_nil_r.
    split; [reflexivity|]. split; [apply grown_refl|]. split; [constructor|].
    repeat split; auto.
  - apply bind_ok in H as ([] & w1 & H1 & H).
    destruct (insert_account_rows_ok _ _ _ _ _ _ Hs H1)
      as (cat1 & x & Hg1 & Hl1 & Hs1 & Ht1 & Htr1).
    destruct (IH _ _ _ Hs1 H) as (cat2 & written & Hlen & Hg2 & Hl2 & Hs2 & Ht2 & Htr2).
    exists cat2, (x :: written). simpl.
    split; [now rewrite Hlen|]. split; [|split; [|split; [|split]]].
    + apply (grown_trans cat cat1 cat2 [] [wa_row x] (wa_transactions x) []
               (map wa_row written) (flat_map wa_transactions written) Hg1 Hg2).
    + constructor; [exact Hl1|].
      eapply Forall_impl; [|exact Hl2]. intros y. apply (linked_grown _ _ _ _ _ _ _ Hg1).
    + exact Hs2.
    + now rewrite Ht2.
    + rewrite Htr2, Htr1. now rewrite <- app_assoc.
Qed.

(** The statements of [insert_data], when none raises. *)
Lemma insert_rows_ok (user_data accounts_data transactions_data : value)
  (w w' : world) (cat : catalog) :
  in_session w cat ->
  insert_rows db_fault user_data accounts_data transactions_data w = (Ok tt, w') ->
  exists cat' user_id user_row details accounts written,
    iterate accounts_data = Ok accounts /\
    length written = length accounts /\
    grown cat cat' [user_row] (map wa_row written) (flat_map wa_transactions written) /\
    field cat "users" "user_id" user_row = Some user_id /\
    Forall (linked cat user_id) written /\
    in_session w' cat' /\
    tables w' = tables w /\
    trace w' = trace w ++ [EvExecute insert_user details; EvFetchone]
                       ++ flat_map (account_events user_id) written.
Proof.
  intros Hs H. unfold insert_rows in H.
  apply bind_ok in H as (name & w1 & H1 & H). apply lift_ok in H1 as [_ ->].
  apply bind_ok in H as (age & w1 & H1 & H). apply lift_ok in H1 as [_ ->].
  apply bind_ok in H as (occ & w1 & H1 & H). apply lift_ok in H1 as [_ ->].
  apply bind_ok in H as (inc & w1 & H1 & H). apply lift_ok in H1 as [_ ->].
  apply bind_ok in H as ([] & w1 & H1 & H).
  apply (execute_insert_ok _ _ _ _ _ _ _ Hs) in H1
    as (cat1 & seqs1 & urow & uid & Happ1 & Hb1 & Hid & ->).
  apply bind_ok in H as (row & w2 & H2 & H).
  rewrite fetchone_executed in H2. inversion H2; subst row w2; clear H2.
  apply bind_ok in H as (uid' & w3 & H3 & H). apply lift_ok in H3 as [H3 ->].
  simpl in H3. inversion H3; subst uid'; clear H3.
  apply bind_ok in H as (accounts & w3 & H3 & H). apply lift_ok in H3 as [Hacc ->].
  apply (insert_accounts_ok _ _ _ _ _ cat1) in H; [|apply in_session_executed].
  destruct H as (cat2 & written & Hlen & Hg & Hl & Hs' & Htab & Htr).
  exists cat2, uid, urow, [name; age; occ; inc], accounts, written.
  split; [exact Hacc|]. split; [exact Hlen|].
  assert (Hg1 : grown cat cat1 [urow] [] []) by now apply grown_users.
  split; [|split; [|split; [|split; [|split]]]].
  - apply (grown_trans cat cat1 cat2 [urow] [] [] [] _ _ Hg1 Hg).
  - exact Hid.
  - eapply Forall_impl; [|exact Hl]. intros y. apply (linked_grown _ _ _ _ _ _ _ Hg1).
  - exact Hs'.
  - rewrite Htab. reflexivity.
  - rewrite Htr. unfold executed; simpl. now rewrite <- !app_assoc.
Qed.

(** A call of [insert_data] that returns normally. *)
Lemma insert_data_ok (self : generator)
  (user_data accounts_data transactions_data : value) (w w' : world) :
  insert_data db_fault self user_data accounts_data transactions_data w = (Ok tt, w') ->
  exists user_id user_row details accounts written,
    iterate accounts_data = Ok accounts /\
    length written = length accounts /\
    grown (tables w) (tables w') [user_row] (map wa_row written)
          (flat_map wa_transactions written) /\
    field (tables w) "users" "user_id" user_row = Some user_id /\
    Forall (linked (tables w) user_id) written /\
    session w' = None /\
    trace w' = trace w
               ++ [EvConnect (db_params self); EvCursor;
                   EvExecute insert_user details; EvFetchone]
               ++ flat_map (account_events user_id) written
               ++ [EvCommit true; EvCursorClose; EvConnClose].
Proof.
  intros H. unfold insert_data in H.
  destruct (db_fault (clock w)) as [e|] eqn:Hf.
  { rewrite (connected_fail _ _ _ _ _ Hf) in H. discriminate. }
  rewrite (connected_run _ _ _ _ Hf) in H.
  match type of H with (fst ?x, _) = _ => destruct x as [r wb] eqn:Hb end.
  simpl in H. inversion H; subst r w'; clear H.
  apply bind_ok in Hb as ([] & w1 & H1 & Hb).
  destruct (insert_rows_ok _ _ _ _ _ _ (in_session_opened _ _) H1)
    as (cat' & uid & urow & details & accounts & written
        & Hacc & Hlen & Hg & Hid & Hl & Hs & Htab & Htr).
  rewrite (commit_run _ _ _ Hs) in Hb.
  destruct (db_fault (clock w1)); [discriminate|].
  inversion Hb; subst wb; clear Hb.
  exists uid, urow, details, accounts, written. simpl.
  repeat split; try tauto; try apply Hg; auto.
  rewrite Htr. unfold opened; simpl. rewrite <- !app_assoc. reflexivity.
Qed.

End Persister.

(** ** Trace logic *)

Section TraceLogic.

Context {state : Type}.
Variable step : state -> event -> option state.

Lemma run_app (s : state) (l1 l2 : list event) :
  run step s (l1 ++ l2) =
  match run step s l1 with
  | Some s1 => run step s1 l2
  | None => None
  end.
Proof.
  revert s. induction l1 as [|ev l1 IH]; intros s; simpl; [reflexivity|].
  destruct (step s ev); [apply IH | reflexivity].
Qed.

Lemma moves_ret {A : Type} (a : A) (s : state) (Q : outcome A -> state -> Prop) :
  Q (Ok a) s -> moves step (ret a) s Q.
Proof. intros HQ w. exists [], s. simpl. now rewrite app_nil_r. Qed.

Lemma moves_lift {A : Type} (o : outcome A) (s : state)
  (Q : outcome A -> state -> Prop) :
  Q o s -> moves step (lift o) s Q.
Proof. intros HQ w. exists [], s. simpl. now rewrite app_nil_r. Qed.

Lemma moves_bind {A B : Type} (m : M A) (k : A -> M B) (s : state)
  (Q1 : outcome A -> state -> Prop) (Q : outcome B -> state -> Prop) :
  moves step m s Q1 ->
  (forall a s1, Q1 (Ok a) s1 -> moves step (k a) s1 Q) ->
  (forall e s1, Q1 (Raise e) s1 -> Q (Raise e) s1) ->
  moves step (bind m k) s Q.
Proof.
  intros Hm Hk He w. destruct (Hm w) as (l1 & s1 & Ht1 & Hr1 & HQ1).
  unfold bind. destruct (m w) as [[a|e] w1]; simpl in *.
  - destruct (Hk a s1 HQ1 w1) as (l2 & s2 & Ht2 & Hr2 & HQ2).
    exists (l1 ++ l2), s2. rewrite Ht2, Ht1, app_assoc, run_app, Hr1. auto.
  - exists l1, s1. auto.
Qed.

Lemma moves_weaken {A : Type} (m : M A) (s : state)
  (Q Q' : outcome A -> state -> Prop) :
  moves step m s Q -> (forall r s', Q r s' -> Q' r s') -> moves step m s Q'.
Proof.
  intros Hm HQ w. destruct (Hm w) as (l & s' & Ht & Hr & Hq). exists l, s'. auto.
Qed.

(** A call that adds exactly one event, whatever it returns. *)
Lemma moves_call {A : Type} (m : M A) (ev : event) (s s' : state)
  (Q : outcome A -> state -> Prop) :
  (forall w, trace (snd (m w)) = trace w ++ [ev]) ->
  step s ev = Some s' ->
  (forall r, Q r s') ->
  moves step m s Q.
Proof.
  intros Hm Hs HQ w. exists [ev], s'. simpl. rewrite Hs. auto.
Qed.

Lemma moves_emit (ev : event) (s s' : state) (Q : outcome unit -> state -> Prop) :
  step s ev = Some s' -> Q (Ok tt) s' -> moves step (emit ev) s Q.
Proof. intros Hs HQ w. exists [ev], s'. simpl. rewrite Hs. auto. Qed.

Lemma moves_for_each {A : Type} (body : A -> M unit) (I : state -> Prop)
  (Q : outcome unit -> state -> Prop) (l : list A) :
  (forall a s, I s -> moves step (body a) s
                            (fun r s' => match r with
                                         | Ok _ => I s'
                                         | Raise e => Q (Raise e) s'
                                         end)) ->
  (forall s, I s -> Q (Ok tt) s) ->
  forall s, I s -> moves step (for_each l body) s Q.
Proof.
  intros Hb Hend. induction l as [|a l IH]; intros s Hs; simpl.
  - apply moves_ret. auto.
  - eapply moves_bind; [apply (Hb a s Hs) | |]; simpl; auto.
Qed.

Lemma moves_try_finally_close {A : Type} (body : M A) (s : state)
  (Q1 Q : outcome A -> state -> Prop) :
  moves step body s Q1 ->
  (forall r s1, Q1 r s1 ->
                exists s2, run step s1 [EvCursorClose; EvConnClose] = Some s2 /\ Q r s2) ->
  moves step (try_finally body (cur_close ;; conn_close)) s Q.
Proof.
  intros Hb Hc w. rewrite try_finally_close.
  destruct (Hb w) as (l & s1 & Ht & Hr & HQ1).
  destruct (Hc _ _ HQ1) as (s2 & Hr2 & HQ).
  exists (l ++ [EvCursorClose; EvConnClose]), s2. simpl.
  rewrite Ht, app_assoc, run_app, Hr. auto.
Qed.

Lemma moves_for_acc {A S : Type} (body : A -> S -> M S) (I : state -> Prop)
  (Q : outcome S -> state -> Prop) (l : list A) :
  (forall a acc s, I s -> moves step (body a acc) s
                                (fun r s' => match r with
                                             | Ok _ => I s'
                                             | Raise e => Q (Raise e) s'
                                             end)) ->
  (forall acc s, I s -> Q (Ok acc) s) ->
  forall acc s, I s -> moves step (for_acc l body acc) s Q.
Proof.
  intros Hb Hend. induction l as [|a l IH]; intros acc s Hs; simpl.
  - apply moves_ret. auto.
  - eapply moves_bind; [apply (Hb a acc s Hs) | |]; simpl; auto.
Qed.

End TraceLogic.

(** ** One event per call *)

Section Calls.

Variable llm : nat -> request -> outcome string.
Variable db_fault : nat -> option exn.

Lemma emit_trace (ev : event) (w : world) :
  trace (snd (emit ev w)) = trace w ++ [ev].
Proof. reflexivity. Qed.

Lemma messages_create_trace (req : request) (w : world) :
  trace (snd (messages_create llm req w)) = trace w ++ [EvMessagesCreate req].
Proof. reflexivity. Qed.

Lemma connect_trace (params : list (string * string)) (w : world) :
  trace (snd (psycopg2_connect db_fault params w)) = trace w ++ [EvConnect params].
Proof. unfold psycopg2_connect. simpl. destruct (db_fault (clock w)); reflexivity. Qed.

Lemma cursor_trace (w : world) :
  trace (snd (conn_cursor w)) = trace w ++ [EvCursor].
Proof. unfold conn_cursor. simpl. destruct (session w); reflexivity. Qed.

Lemma execute_trace (sql : statement) (params : list value) (w : world) :
  trace (snd (cur_execute db_fault sql params w)) = trace w ++ [EvExecute sql params].
Proof.
  unfold cur_execute. simpl. destruct (session w) as [c|]; [|reflexivity].
  destruct (cursor_open c); simpl; [|reflexivity].
  destruct (db_fault (clock w)); [reflexivity|].
  destruct (run_statement _ _ _ _) as [[[? ?] ?]|]; reflexivity.
Qed.

Lemma fetchone_trace (w : world) :
  trace (snd (cur_fetchone w)) = trace w ++ [EvFetchone].
Proof.
  unfold cur_fetchone. simpl. destruct (session w) as [c|]; [|reflexivity].
  destruct (cursor_open c); simpl; [|reflexivity].
  destruct (fetched c); reflexivity.
Qed.

Lemma execute_values_trace (sql : statement) (argslist : list (list value)) (w : world) :
  trace (snd (execute_values db_fault sql argslist w)) =
  trace w ++ [EvExecuteValues sql argslist].
Proof.
  unfold execute_values. simpl. destruct (session w) as [c|]; [|reflexivity].
  destruct (cursor_open c); simpl; [|reflexivity].
  destruct argslist; [reflexivity|].
  destruct (db_fault (clock w)); [reflexivity|].
  destruct sql; [reflexivity|].
  destruct (run_values _ _ _ _ _) as [[? ?]|]; reflexivity.
Qed.

Lemma commit_trace (w : world) :
  trace (snd (conn_commit db_fault w)) =
  trace w ++ [EvCommit (match fst (conn_commit db_fault w) with
                        | Ok _ => true
                        | Raise _ => false
                        end)].
Proof.
  unfold conn_commit. destruct (session w) as [c|]; [|reflexivity].
  destruct (db_fault (clock w)); reflexivity.
Qed.

Lemma execute_keeps (sql : statement) (params : list value) :
  keeps_tables (cur_execute db_fault sql params).
Proof.
  intros w. unfold cur_execute. simpl. destruct (session w) as [c|]; [|reflexivity].
  destruct (cursor_open c); simpl; [|reflexivity].
  destruct (db_fault (clock w)); [reflexivity|].
  destruct (run_statement _ _ _ _) as [[[? ?] ?]|]; reflexivity.
Qed.

Lemma fetchone_keeps : keeps_tables cur_fetchone.
Proof.
  intros w. unfold cur_fetchone. simpl. destruct (session w) as [c|]; [|reflexivity].
  destruct (cursor_open c); simpl; [|reflexivity].
  destruct (fetched c); reflexivity.
Qed.

Lemma execute_values_keeps (sql : statement) (argslist : list (list value)) :
  keeps_tables (execute_values db_fault sql argslist).
Proof.
  intros w. unfold execute_values. simpl. destruct (session w) as [c|]; [|reflexivity].
  destruct (cursor_open c); simpl; [|reflexivity].
  destruct argslist; [reflexivity|].
  destruct (db_fault (clock w)); [reflexivity|].
  destruct sql; [reflexivity|].
  destruct (run_values _ _ _ _ _) as [[? ?]|]; reflexivity.
Qed.

Lemma lift_keeps {A : Type} (o : outcome A) : keeps_tables (lift o).
Proof. intros w. reflexivity. Qed.

Lemma ret_keeps {A : Type} (a : A) : keeps_tables (ret a).
Proof. intros w. reflexivity. Qed.

Lemma bind_keeps {A B : Type} (m : M A) (k : A -> M B) :
  keeps_tables m -> (forall a, keeps_tables (k a)) -> keeps_tables (bind m k).
Proof.
  intros Hm Hk w. unfold bind. specialize (Hm w).
  destruct (m w) as [[a|e] w1]; simpl in *; [|exact Hm].
  now rewrite Hk.
Qed.

Lemma for_each_keeps {A : Type} (body : A -> M unit) (l : list A) :
  (forall a, keeps_tables (body a)) -> keeps_tables (for_each l body).
Proof.
  intros Hb. induction l as [|a l IH]; simpl.
  - apply ret_keeps.
  - apply bind_keeps; auto.
Qed.

Lemma insert_rows_keeps (user_data accounts_data transactions_data : value) :
  keeps_tables (insert_rows db_fault user_data accounts_data transactions_data).
Proof.
  unfold insert_rows, insert_account_rows.
  repeat first
    [ apply bind_keeps; [|intros ?]
    | apply lift_keeps
    | apply execute_keeps
    | apply fetchone_keeps
    | apply execute_values_keeps
    | apply for_each_keeps; intros ? ].
Qed.

End Calls.

(** ** The statements of the persister *)

Section Statements.

Variable db_fault : nat -> option exn.
Context {state : Type}.
Variable step : state -> event -> option state.
Variable s : state.

(** [s] is a state in which the automaton accepts the statements of an
    open transaction and stays where it is. *)
Hypothesis accepts_execute :
  forall tn cols r params, step s (EvExecute (InsertInto tn cols r) params) = Some s.
Hypothesis accepts_fetchone : step s EvFetchone = Some s.
Hypothesis accepts_values :
  forall sql argslist, step s (EvExecuteValues sql argslist) = Some s.

Lemma insert_account_rows_moves (user_id transactions_data account : value) :
  moves step (insert_account_rows db_fault user_id transactions_data account) s
        (fun _ s' => s' = s).
Proof.
  unfold insert_account_rows.
  repeat (eapply moves_bind with (Q1 := fun _ s' => s' = s);
          [first [ apply moves_lift; reflexivity
                 | eapply moves_call;
                   [ first [ apply execute_trace | apply fetchone_trace ]
                   | first [ apply accepts_execute | apply accepts_fetchone ]
                   | reflexivity ] ]
          | intros ? ? -> | intros ? ? ->; reflexivity ]).
  eapply moves_call; [apply execute_values_trace | apply accepts_values | reflexivity].
Qed.

Lemma insert_rows_moves (user_data accounts_data transactions_data : value) :
  moves step (insert_rows db_fault user_data accounts_data transactions_data) s
        (fun _ s' => s' = s).
Proof.
  unfold insert_rows.
  repeat (eapply moves_bind with (Q1 := fun _ s' => s' = s);
          [first [ apply moves_lift; reflexivity
                 | eapply moves_call;
                   [ first [ apply execute_trace | apply fetchone_trace ]
                   | first [ apply accepts_execute | apply accepts_fetchone ]
                   | reflexivity ] ]
          | intros ? ? -> | intros ? ? ->; reflexivity ]).
  apply moves_for_each with (I := fun s' => s' = s); auto.
  intros account s' ->.
  eapply moves_weaken; [apply insert_account_rows_moves|].
  intros [[]|e] s' ->; reflexivity.
Qed.

End Statements.

Lemma statements_only_run (evs : list event) (u u' : unit) :
  run statements_only u evs = Some u' -> forallb statement_event evs = true.
Proof.
  revert u. induction evs as [|ev evs IH]; intros u; simpl; [reflexivity|].
  unfold statements_only at 1. destruct (statement_event ev); [|discriminate].
  intros H. simpl. eauto.
Qed.

Section Commit.

Variable db_fault : nat -> option exn.

Lemma insert_rows_statements (user_data accounts_data transactions_data : value)
  (w : world) :
  exists stmts,
    trace (snd (insert_rows db_fault user_data accounts_data transactions_data w))
    = trace w ++ stmts /\
    forallb statement_event stmts = true.
Proof.
  destruct (insert_rows_moves db_fault statements_only tt
              (fun _ _ _ _ => eq_refl) eq_refl (fun _ _ => eq_refl)
              user_data accounts_data transactions_data w)
    as (stmts & u & Ht & Hr & _).
  exists stmts. split; [exact Ht|]. now apply (statements_only_run _ _ _ Hr).
Qed.

(** C2: once the connection is open, [insert_data] runs the insert
    statements (none of which is a commit), then at most one commit, then
    closes the cursor and the connection, which ends every path.  If an
    insert step raises, the same exception leaves [insert_data], no
    commit is issued and the committed tables are exactly those found at
    entry.  If every insert step succeeds, exactly one commit is issued,
    right after the last statement: acknowledged, the call returns
    normally; failed, the call raises and the committed tables are again
    those found at entry. *)
Theorem insert_data_commit_discipline (self : generator)
  (user_data accounts_data transactions_data : value) (w : world) :
  db_fault (clock w) = None ->
  let start := opened (db_params self) w in
  let rows := insert_rows db_fault user_data accounts_data transactions_data start in
  let result := insert_data db_fault self user_data accounts_data transactions_data w in
  exists stmts commits,
    trace (snd rows) = trace start ++ stmts /\
    forallb statement_event stmts = true /\
    trace (snd result) =
    trace start ++ stmts ++ commits ++ [EvCursorClose; EvConnClose] /\
    session (snd result) = None /\
    match fst rows with
    | Raise e =>
        fst result = Raise e /\ commits = [] /\ tables (snd result) = tables w
    | Ok _ =>
        exists ack,
          commits = [EvCommit ack] /\
          if ack then fst result = Ok tt
          else (exists e, fst result = Raise e) /\ tables (snd result) = tables w
    end.
Proof.
  intros Hf start rows result.
  destruct (insert_rows_statements user_data accounts_data transactions_data start)
    as (stmts & Ht & Hst).
  assert (Hk := insert_rows_keeps db_fault user_data accounts_data transactions_data
                  start).
  fold rows in Ht, Hk.
  assert (Hres : result =
                 (fst ((insert_rows db_fault user_data accounts_data transactions_data ;;
                        conn_commit db_fault) start),
                  closed (snd ((insert_rows db_fault user_data accounts_data
                                            transactions_data ;;
                                conn_commit db_fault) start)))).
  { unfold result, insert_data. now rewrite (connected_run _ _ _ _ Hf). }
  unfold bind in Hres. fold rows in Hres.
  destruct rows as [[[]|e] w1] eqn:Hrows; simpl in *.
  - destruct (insert_rows_ok db_fault _ _ _ _ _ _ (in_session_opened _ _) Hrows)
      as (cat' & _ & _ & _ & _ & _ & _ & _ & _ & _ & _ & Hs & _ & _).
    rewrite (commit_run _ _ _ Hs) in Hres.
    destruct (db_fault (clock w1)) as [e|]; rewrite Hres; simpl.
    + exists stmts, [EvCommit false]. rewrite Ht, <- !app_assoc. simpl.
      repeat split; auto. exists false. repeat split; eauto.
    + exists stmts, [EvCommit true]. rewrite Ht, <- !app_assoc. simpl.
      repeat split; auto. exists true. auto.
  - rewrite Hres. simpl. exists stmts, []. rewrite Ht, <- !app_assoc. simpl.
    repeat split; auto.
Qed.

(** C3: after a call of [insert_data] that returns normally, the call has
    appended one row to [users], one row per account to [accounts] and
    the transaction rows to [transactions], and nothing else.  Every new
    account row has, in its user_id column, the identifier returned for
    the new user row; every new transaction row has, in its account_id
    column, the identifier returned for the account row written in the
    same turn of the loop.  The calls were made in this order: the user
    insert and the fetch of its identifier; then, account by account,
    the account insert bound to that identifier, the fetch of the account
    identifier, and the transaction insert bound to the latter; then the
    commit. *)
Theorem insert_data_referential_integrity (self : generator)
  (user_data accounts_data transactions_data : value) (w w' : world) :
  insert_data db_fault self user_data accounts_data transactions_data w = (Ok tt, w') ->
  exists user_id user_row details written,
    grown (tables w) (tables w') [user_row] (map wa_row written)
          (flat_map wa_transactions written) /\
    field (tables w') "users" "user_id" user_row = Some user_id /\
    Forall (linked (tables w') user_id) written /\
    trace w' = trace w
               ++ [EvConnect (db_params self); EvCursor;
                   EvExecute insert_user details; EvFetchone]
               ++ flat_map (account_events user_id) written
               ++ [EvCommit true; EvCursorClose; EvConnClose].
Proof.
  intros H.
  destruct (insert_data_ok db_fault _ _ _ _ _ _ H)
    as (uid & urow & details & accounts & written
        & _ & _ & Hg & Hid & Hl & _ & Htr).
  exists uid, urow, details, written.
  split; [exact Hg|]. split; [|split; [|exact Htr]].
  - now rewrite (field_grown _ _ _ _ _ _ _ _ Hg).
  - eapply Forall_impl; [|exact Hl]. intros x (H1 & H2 & H3 & H4).
    unfold linked. rewrite !(field_grown _ _ _ _ _ _ _ _ Hg).
    repeat split; auto.
    eapply Forall_impl; [|exact H4]. intros row Hr. cbv beta.
    now rewrite (field_grown _ _ _ _ _ _ _ _ Hg).
Qed.

(** C9: a call of [insert_data] with an empty list of accounts that
    returns normally has inserted exactly one user row, has touched
    neither [accounts] nor [transactions], and has committed; its calls
    are the user insert, the fetch of the identifier and the commit.  The
    transaction list plays no part: with any other list the call returns
    normally with the same final state. *)
Theorem insert_data_without_accounts (self : generator)
  (user_data transactions_data : value) (w w' : world) :
  insert_data db_fault self user_data (PyList []) transactions_data w = (Ok tt, w') ->
  (exists user_row details,
      grown (tables w) (tables w') [user_row] [] [] /\
      trace w' = trace w
                 ++ [EvConnect (db_params self); EvCursor;
                     EvExecute insert_user details; EvFetchone;
                     EvCommit true; EvCursorClose; EvConnClose]) /\
  (forall other,
      insert_data db_fault self user_data (PyList []) other w = (Ok tt, w')).
Proof.
  intros H. split.
  - destruct (insert_data_ok db_fault _ _ _ _ _ _ H)
      as (uid & urow & details & accounts & written
          & Hacc & Hlen & Hg & _ & _ & _ & Htr).
    simpl in Hacc. inversion Hacc; subst accounts.
    destruct written; [|discriminate]. simpl in *.
    exists urow, details. split; [exact Hg | exact Htr].
  - intros other. rewrite <- H. reflexivity.
Qed.

End Commit.

Lemma insert_data_commit_discipline_witness :
  let start := opened (db_params (init [])) ready in
  let rows := insert_rows no_fault jane (PyList [checking; savings])
                          (PyList [groceries; interest]) start in
  let result := jane_persisted in
  exists stmts commits,
    trace (snd rows) = trace start ++ stmts /\
    forallb statement_event stmts = true /\
    trace (snd result) =
    trace start ++ stmts ++ commits ++ [EvCursorClose; EvConnClose] /\
    session (snd result) = None /\
    match fst rows with
    | Raise e =>
        fst result = Raise e /\ commits = [] /\ tables (snd result) = tables ready
    | Ok _ =>
        exists ack,
          commits = [EvCommit ack] /\
          if ack then fst result = Ok tt
          else (exists e, fst result = Raise e) /\ tables (snd result) = tables ready
    end.
Proof.
  apply (insert_data_commit_discipline no_fault (init []) jane
           (PyList [checking; savings]) (PyList [groceries; interest]) ready).
  reflexivity.
Defined.

Lemma insert_data_referential_integrity_witness :
  exists user_id user_row details written,
    grown (tables ready) (tables (snd jane_persisted)) [user_row] (map wa_row written)
          (flat_map wa_transactions written) /\
    field (tables (snd jane_persisted)) "users" "user_id" user_row = Some user_id /\
    Forall (linked (tables (snd jane_persisted)) user_id) written /\
    trace (snd jane_persisted) =
    trace ready
    ++ [EvConnect (db_params (init [])); EvCursor;
        EvExecute insert_user details; EvFetchone]
    ++ flat_map (account_events user_id) written
    ++ [EvCommit true; EvCursorClose; EvConnClose].
Proof.
  apply (insert_data_referential_integrity no_fault (init []) jane
           (PyList [checking; savings]) (PyList [groceries; interest]) ready
           (snd jane_persisted)).
  vm_compute. reflexivity.
Defined.

Lemma insert_data_without_accounts_witness :
  (exists user_row details,
      grown (tables ready) (tables (snd jane_alone)) [user_row] [] [] /\
      trace (snd jane_alone) =
      trace ready
      ++ [EvConnect (db_params (init [])); EvCursor;
          EvExecute insert_user details; EvFetchone;
          EvCommit true; EvCursorClose; EvConnClose]) /\
  (forall other,
      insert_data no_fault (init []) jane (PyList []) other ready
      = (Ok tt, snd jane_alone)).
Proof.
  apply (insert_data_without_accounts no_fault (init []) jane
           (PyList [groceries; interest]) ready (snd jane_alone)).
  vm_compute. reflexivity.
Defined.

(** ** The transactions written for each account *)

(** C1 (the code departs from it): in the stubbed run for one user the
    model returns one grocery purchase for the checking account and one
    interest payment for the savings account; [insert_data] writes both
    transactions under each of the two accounts, four rows where the claim
    allows two. *)
Theorem insert_data_writes_all_transactions_per_account :
  fst one_user_run = Ok tt /\
  rows_of (tables (snd one_user_run)) "accounts" =
  [[PyInt 1; PyInt 1; PyStr "checking"; PyStr "Test Bank"; PyFloat "1000.0"];
   [PyInt 2; PyInt 1; PyStr "savings"; PyStr "Test Bank"; PyFloat "2500.0"]] /\
  rows_of (tables (snd one_user_run)) "transactions" =
  [[PyInt 1; PyInt 1; PyStr "2023-01-15"; PyFloat "-50.0"; PyStr "groceries";
    PyStr "Store"; PyStr "debit"];
   [PyInt 2; PyInt 1; PyStr "2023-02-01"; PyFloat "12.5"; PyStr "interest";
    PyStr "Test Bank"; PyStr "credit"];
   [PyInt 3; PyInt 2; PyStr "2023-01-15"; PyFloat "-50.0"; PyStr "groceries";
    PyStr "Store"; PyStr "debit"];
   [PyInt 4; PyInt 2; PyStr "2023-02-01"; PyFloat "12.5"; PyStr "interest";
    PyStr "Test Bank"; PyStr "credit"]].
Proof. vm_compute. repeat split. Qed.

(** ** The orchestrator *)

Section Orchestrator.

Variable llm : nat -> request -> outcome string.
Variable json_loads : string -> outcome value.
Variable db_fault : nat -> option exn.
Variable self : generator.
Variable num_users : Z.

Lemma commit_moves (s s1 s2 : phase) :
  orchestration num_users s (EvCommit true) = Some s1 ->
  orchestration num_users s (EvCommit false) = Some s2 ->
  moves (orchestration num_users) (conn_commit db_fault) s
        (fun r p => match r with Ok _ => p = s1 | Raise _ => p = s2 end).
Proof.
  intros H1 H2 w. pose proof (commit_trace db_fault w) as Ht.
  destruct (fst (conn_commit db_fault w)) as [[]|e].
  - exists [EvCommit true], s1. simpl. rewrite H1. auto.
  - exists [EvCommit false], s2. simpl. rewrite H2. auto.
Qed.

Lemma create_tables_moves :
  moves (orchestration num_users) (create_tables db_fault self) PStart (lands (PReady 0)).
Proof.
  unfold create_tables.
  eapply moves_bind with (Q1 := fun _ p => p = PSchema 0 false).
  { eapply moves_call; [apply connect_trace | reflexivity | reflexivity]. }
  2:{ intros e p ->. reflexivity. }
  intros _ p ->.
  eapply moves_bind with (Q1 := fun _ p => p = PSchema 1 false).
  { eapply moves_call; [apply cursor_trace | reflexivity | reflexivity]. }
  2:{ intros e p ->. reflexivity. }
  intros _ p ->.
  eapply moves_try_finally_close
    with (Q1 := fun r p => match r with
                           | Ok _ => p = PSchema 4 true
                           | Raise _ => exists calls, p = PSchema calls false
                           end).
  - eapply moves_bind with (Q1 := fun _ p => p = PSchema 2 false);
      [ eapply moves_call; [apply execute_trace | reflexivity | reflexivity]
      | intros ? ? -> | intros ? ? ->; eexists; reflexivity ].
    eapply moves_bind with (Q1 := fun _ p => p = PSchema 3 false);
      [ eapply moves_call; [apply execute_trace | reflexivity | reflexivity]
      | intros ? ? -> | intros ? ? ->; eexists; reflexivity ].
    eapply moves_bind with (Q1 := fun _ p => p = PSchema 4 false);
      [ eapply moves_call; [apply execute_trace | reflexivity | reflexivity]
      | intros ? ? -> | intros ? ? ->; eexists; reflexivity ].
    eapply moves_weaken; [apply commit_moves; reflexivity|].
    intros [[]|e] p ->; [reflexivity | eexists; reflexivity].
  - intros [[]|e] p Hp.
    + subst p. eexists; split; reflexivity.
    + destruct Hp as (calls & ->).
      destruct calls as [|[|[|[|[|calls]]]]]; eexists; split; reflexivity.
Qed.

Lemma insert_account_rows_persisting (i : nat)
  (user_id transactions_data account : value) :
  moves (orchestration num_users)
        (insert_account_rows db_fault user_id transactions_data account)
        (PPersist i BetweenAccounts false) (persisting i BetweenAccounts).
Proof.
  unfold insert_account_rows.
  do 3 (eapply moves_bind with (Q1 := fun _ p => p = PPersist i BetweenAccounts false);
        [ apply moves_lift; reflexivity
        | intros ? ? ->
        | intros ? ? ->; eexists; reflexivity ]).
  eapply moves_bind with (Q1 := fun _ p => p = PPersist i AwaitAccountId false);
    [ eapply moves_call; [apply execute_trace | reflexivity | reflexivity]
    | intros ? ? ->
    | intros ? ? ->; eexists; reflexivity ].
  eapply moves_bind with (Q1 := fun _ p => p = PPersist i AwaitTransactions false);
    [ eapply moves_call; [apply fetchone_trace | reflexivity | reflexivity]
    | intros ? ? ->
    | intros ? ? ->; eexists; reflexivity ].
  do 3 (eapply moves_bind with (Q1 := fun _ p => p = PPersist i AwaitTransactions false);
        [ apply moves_lift; reflexivity
        | intros ? ? ->
        | intros ? ? ->; eexists; reflexivity ]).
  eapply moves_call; [apply execute_values_trace | reflexivity |].
  intros [[]|e]; [reflexivity | eexists; reflexivity].
Qed.

Lemma insert_rows_persisting (i : nat)
  (user_data accounts_data transactions_data : value) :
  moves (orchestration num_users)
        (insert_rows db_fault user_data accounts_data transactions_data)
        (PPersist i AwaitUser false) (persisting i BetweenAccounts).
Proof.
  unfold insert_rows.
  do 4 (eapply moves_bind with (Q1 := fun _ p => p = PPersist i AwaitUser false);
        [ apply moves_lift; reflexivity
        | intros ? ? ->
        | intros ? ? ->; eexists; reflexivity ]).
  eapply moves_bind with (Q1 := fun _ p => p = PPersist i AwaitUserId false);
    [ eapply moves_call; [apply execute_trace | reflexivity | reflexivity]
    | intros ? ? ->
    | intros ? ? ->; eexists; reflexivity ].
  eapply moves_bind with (Q1 := fun _ p => p = PPersist i BetweenAccounts false);
    [ eapply moves_call; [apply fetchone_trace | reflexivity | reflexivity]
    | intros ? ? ->
    | intros ? ? ->; eexists; reflexivity ].
  do 2 (eapply moves_bind with (Q1 := fun _ p => p = PPersist i BetweenAccounts false);
        [ apply moves_lift; reflexivity
        | intros ? ? ->
        | intros ? ? ->; eexists; reflexivity ]).
  apply moves_for_each with (I := fun p => p = PPersist i BetweenAccounts false);
    [ | intros p ->; reflexivity | reflexivity ].
  intros account p ->.
  eapply moves_weaken; [apply insert_account_rows_persisting|].
  intros [[]|e] p H; exact H.
Qed.

Lemma insert_data_moves (i : nat) (user_data accounts_data transactions_data : value) :
  moves (orchestration num_users) (insert_data db_fault self user_data accounts_data transactions_data)
        (PAccounts i) (lands (PPersisted i)).
Proof.
  unfold insert_data.
  eapply moves_bind with (Q1 := fun _ p => p = PPersist i AwaitCursor false).
  { eapply moves_call; [apply connect_trace | reflexivity | reflexivity]. }
  2:{ intros e p ->. reflexivity. }
  intros _ p ->.
  eapply moves_bind with (Q1 := fun _ p => p = PPersist i AwaitUser false).
  { eapply moves_call; [apply cursor_trace | reflexivity | reflexivity]. }
  2:{ intros e p ->. reflexivity. }
  intros _ p ->.
  eapply moves_try_finally_close
    with (Q1 := fun r p => match r with
                           | Ok _ => p = PPersist i BetweenAccounts true
                           | Raise _ => exists st, p = PPersist i st false
                           end).
  - eapply moves_bind; [apply insert_rows_persisting | |].
    + intros [] p H. simpl in H. subst p.
      eapply moves_weaken; [apply commit_moves; reflexivity|].
      intros [[]|e] p ->; [reflexivity | eexists; reflexivity].
    + intros e p H. exact H.
  - intros [[]|e] p Hp.
    + subst p. eexists; split; reflexivity.
    + destruct Hp as (st & ->). destruct st; eexists; split; reflexivity.
Qed.

Lemma generate_user_profile_moves (i : nat) (index : Z) :
  moves (orchestration num_users) (generate_user_profile llm json_loads self index) (PAnnounced i)
        (fun _ p => p = PProfiled i).
Proof.
  unfold generate_user_profile.
  eapply moves_bind with (Q1 := fun _ p => p = PProfiled i).
  - eapply moves_call; [apply messages_create_trace | reflexivity | reflexivity].
  - intros text p ->. apply moves_lift. reflexivity.
  - intros e p ->. reflexivity.
Qed.

Lemma generate_accounts_moves (i : nat) (user_profile : value) :
  moves (orchestration num_users) (generate_accounts llm json_loads self user_profile) (PProfiled i)
        (fun r p => match r with
                    | Ok _ => p = PAccounts i
                    | Raise _ => is_ready p = false
                    end).
Proof.
  unfold generate_accounts.
  eapply moves_bind with (Q1 := fun _ p => p = PProfiled i).
  - apply moves_lift. reflexivity.
  - intros income p ->.
    eapply moves_bind with (Q1 := fun _ p => p = PAccounts i).
    + eapply moves_call; [apply messages_create_trace | reflexivity | reflexivity].
    + intros text p ->. apply moves_lift. destruct (json_loads text); reflexivity.
    + intros e p ->. reflexivity.
  - intros e p ->. reflexivity.
Qed.

Lemma generate_transactions_moves (i : nat) (account user_profile : value) :
  moves (orchestration num_users) (generate_transactions llm json_loads self account user_profile)
        (PAccounts i) (fun _ p => p = PAccounts i).
Proof.
  unfold generate_transactions.
  repeat (eapply moves_bind with (Q1 := fun _ p => p = PAccounts i);
          [ first [ apply moves_lift; reflexivity
                  | eapply moves_call;
                    [apply messages_create_trace | reflexivity | reflexivity] ]
          | intros ? ? -> | intros ? ? ->; reflexivity ]).
  apply moves_lift. reflexivity.
Qed.

Lemma collect_transactions_moves (i : nat) (user_profile : value)
  (accounts : list value) :
  moves (orchestration num_users) (collect_transactions llm json_loads self user_profile accounts)
        (PAccounts i) (fun _ p => p = PAccounts i).
Proof.
  unfold collect_transactions.
  apply moves_for_acc with (I := fun p => p = PAccounts i); auto.
  intros account acc p ->.
  eapply moves_bind with (Q1 := fun _ p => p = PAccounts i).
  - apply generate_transactions_moves.
  - intros transactions p ->.
    eapply moves_bind with (Q1 := fun _ p => p = PAccounts i).
    + apply moves_lift. reflexivity.
    + intros items p ->. apply moves_ret. reflexivity.
    + intros e p ->. reflexivity.
  - intros e p ->. reflexivity.
Qed.

Lemma generate_user_moves (i : nat) :
  (Z.of_nat i < num_users)%Z ->
  moves (orchestration num_users) (generate_user llm json_loads db_fault self num_users i) (PReady i)
        (lands (PReady (S i))).
Proof.
  intros Hi. unfold generate_user.
  eapply moves_bind with (Q1 := fun _ p => p = PAnnounced i).
  { eapply moves_call; [apply emit_trace | | reflexivity].
    cbn [orchestration progress_started].
    rewrite !String.eqb_refl, !Z.eqb_refl. cbn [andb].
    apply Z.ltb_lt in Hi. now rewrite Hi. }
  2:{ intros e p ->. reflexivity. }
  intros _ p ->.
  eapply moves_bind; [apply generate_user_profile_moves | |].
  2:{ intros e p ->. reflexivity. }
  intros user_profile p ->.
  eapply moves_bind; [apply generate_accounts_moves | |].
  2:{ intros e p H. exact H. }
  intros accounts p ->.
  eapply moves_bind with (Q1 := fun _ p => p = PAccounts i).
  { apply moves_lift. reflexivity. }
  2:{ intros e p ->. reflexivity. }
  intros items p ->.
  eapply moves_bind; [apply collect_transactions_moves | |].
  2:{ intros e p ->. reflexivity. }
  intros all_transactions p ->.
  eapply moves_bind; [apply insert_data_moves | |].
  2:{ intros e p H. exact H. }
  intros [] p H. simpl in H. subst p.
  apply moves_emit with (s' := PReady (S i)); [|reflexivity].
  cbn [orchestration progress_completed].
  now rewrite !String.eqb_refl, !Z.eqb_refl.
Qed.

Lemma users_loop_moves (count : nat) :
  forall first,
    (Z.of_nat (first + count) <= Z.max 0 num_users)%Z ->
    moves (orchestration num_users)
          (for_each (seq first count)
                    (generate_user llm json_loads db_fault self num_users))
          (PReady first) (lands (PReady (first + count))).
Proof.
  induction count as [|count IH]; intros first Hle; simpl.
  - apply moves_ret. simpl. f_equal. lia.
  - eapply moves_bind; [apply generate_user_moves; lia | |].
    + intros [] p H. simpl in H. subst p.
      replace (first + S count)%nat with (S first + count)%nat by lia.
      apply IH. lia.
    + intros e p H. exact H.
Qed.

Lemma generate_all_data_moves :
  moves (orchestration num_users) (generate_all_data llm json_loads db_fault self num_users) PStart
        (lands (PReady (Z.to_nat num_users))).
Proof.
  unfold generate_all_data.
  eapply moves_bind; [apply create_tables_moves | |].
  - intros [] p H. simpl in H. subst p.
    apply (users_loop_moves (Z.to_nat num_users) 0%nat). lia.
  - intros e p H. exact H.
Qed.

Lemma logged_app (l1 l2 : list event) (w : world) :
  logged l2 (logged l1 w) = logged (l1 ++ l2) w.
Proof. unfold logged. simpl. now rewrite app_assoc. Qed.

Lemma logged_nil (w : world) : logged [] w = w.
Proof. destruct w. unfold logged. simpl. now rewrite app_nil_r. Qed.

Lemma clock_logged (evs : list event) (w : world) :
  clock (logged evs w) = (clock w + length evs)%nat.
Proof. unfold clock, logged. simpl. apply length_app. Qed.

Lemma generate_user_profile_run (index : Z) (w : world) :
  generate_user_profile llm json_loads self index w =
  (decoded llm json_loads (clock w) profile_request,
   logged [EvMessagesCreate profile_request] w).
Proof.
  unfold generate_user_profile, bind, decoded, lift. rewrite messages_create_run.
  destruct (llm (clock w) profile_request); reflexivity.
Qed.

Lemma generate_accounts_ok (user_profile accounts : value) (w w' : world) :
  generate_accounts llm json_loads self user_profile w = (Ok accounts, w') ->
  exists income,
    subscript user_profile "income_bracket" = Ok income /\
    decoded llm json_loads (clock w) (accounts_request income) = Ok accounts /\
    w' = logged [EvMessagesCreate (accounts_request income)] w.
Proof.
  unfold generate_accounts. intros H.
  apply bind_ok in H as (income & w1 & H1 & H). apply lift_ok in H1 as [Hi ->].
  apply bind_ok in H as (text & w1 & H1 & H). apply lift_ok in H as [Hd ->].
  rewrite messages_create_run in H1. inversion H1 as [[Hl Hw]].
  exists income. unfold decoded. rewrite Hl. auto.
Qed.

Lemma generate_transactions_ok (account user_profile v : value) (w w' : world) :
  generate_transactions llm json_loads self account user_profile w = (Ok v, w') ->
  exists req,
    batch_request user_profile account req /\
    decoded llm json_loads (clock w) req = Ok v /\
    w' = logged [EvMessagesCreate req] w.
Proof.
  unfold generate_transactions. intros H.
  apply bind_ok in H as (kind & w1 & H1 & H). apply lift_ok in H1 as [Hk ->].
  apply bind_ok in H as (bal & w1 & H1 & H). apply lift_ok in H1 as [Hb ->].
  apply bind_ok in H as (inc & w1 & H1 & H). apply lift_ok in H1 as [Hi ->].
  apply bind_ok in H as (text & w1 & H1 & H). apply lift_ok in H as [Hd ->].
  rewrite messages_create_run in H1. inversion H1 as [[Hl Hw]].
  eexists. split; [exists kind, bal, inc; auto|].
  unfold decoded. rewrite Hl. auto.
Qed.

(** The batches of a generation that succeeds are the replies to the
    requests made, one per account. *)
Lemma batches_generated_replies (user_profile : value) (items : list value) :
  forall (w w' : world) (batches : list (list value)),
    batches_generated llm json_loads self user_profile items w (Ok batches) w' ->
    exists sent,
      Forall2 (batch_request user_profile) items sent /\
      replies llm json_loads (clock w) sent batches /\
      w' = logged (map EvMessagesCreate sent) w.
Proof.
  induction items as [|account rest IH]; intros w w' batches H; inversion H; subst.
  - exists []. simpl. rewrite logged_nil. auto.
  - match goal with
    | Hg : generate_transactions _ _ _ _ _ _ = _ |- _ =>
        apply generate_transactions_ok in Hg as (req & Hreq & Hd & ->)
    end.
    match goal with
    | Hb : batches_generated _ _ _ _ _ _ _ _ |- _ =>
        apply IH in Hb as (sent & Hf & Hr & ->)
    end.
    exists (req :: sent). simpl. split; [auto|]. split.
    + split; [eauto|].
      rewrite clock_logged in Hr. simpl in Hr.
      now replace (S (clock w)) with (clock w + 1)%nat by lia.
    + now rewrite logged_app.
Qed.

(** The inner loop generates the batches, and hands over all of them. *)
Lemma collect_transactions_run (user_profile : value) (accounts : list value) :
  forall (acc : list value) (w w' : world) (r : outcome (list value)),
    for_acc accounts
      (fun account all =>
         transactions <- generate_transactions llm json_loads self account
                                               user_profile ;;
         items <- lift (iterate transactions) ;;
         ret (all ++ items)) acc w = (r, w') ->
    match r with
    | Ok all_transactions =>
        exists batches,
          batches_generated llm json_loads self user_profile accounts w (Ok batches) w' /\
          all_transactions = acc ++ concat batches
    | Raise e =>
        batches_generated llm json_loads self user_profile accounts w (Raise e) w'
    end.
Proof.
  induction accounts as [|account rest IH]; intros acc w w' r H; cbn [for_acc] in H.
  - inversion H; subst. exists []. simpl. rewrite app_nil_r. split; [constructor | reflexivity].
  - destruct (generate_transactions llm json_loads self account user_profile w)
      as [[transactions|e] w1] eqn:Hg.
    + destruct (iterate transactions) as [batch|e] eqn:Hi.
      * rewrite (bind_run _ _ w w1 (acc ++ batch)) in H.
        2:{ rewrite (bind_run _ _ _ _ _ Hg). unfold bind, lift, ret. now rewrite Hi. }
        apply IH in H. destruct r as [all|e].
        -- destruct H as (batches & Hb & ->).
           exists (batch :: batches). split.
           ++ eapply batches_next; eauto.
           ++ simpl. now rewrite app_assoc.
        -- eapply batches_abort; eauto.
      * rewrite (bind_raise _ _ w w1 e) in H.
        2:{ rewrite (bind_run _ _ _ _ _ Hg). unfold bind, lift. now rewrite Hi. }
        inversion H; subst. eapply batches_not_iterable; eauto.
    + rewrite (bind_raise _ _ w w1 e) in H.
      2:{ now rewrite (bind_raise _ _ _ _ _ Hg). }
      inversion H; subst. eapply batches_raise; eauto.
Qed.

(** The body of the loop over the users is one iteration. *)
Lemma generate_user_turn (i : nat) (w w' : world) (r : outcome unit) :
  generate_user llm json_loads db_fault self num_users i w = (r, w') ->
  turn llm json_loads db_fault self num_users i w r w'.
Proof.
  unfold generate_user. intros H.
  rewrite (bind_run _ _ w (logged [EvPrint (started_line num_users i)] w) tt) in H
    by reflexivity.
  destruct (generate_user_profile llm json_loads self (Z.of_nat i)
              (logged [EvPrint (started_line num_users i)] w))
    as [[user_profile|e] w1] eqn:Hp.
  2:{ rewrite (bind_raise _ _ _ _ _ Hp) in H. inversion H; subst.
      eapply turn_profile_raises; eauto. }
  rewrite (bind_run _ _ _ _ _ Hp) in H.
  destruct (generate_accounts llm json_loads self user_profile w1)
    as [[accounts|e] w2] eqn:Ha.
  2:{ rewrite (bind_raise _ _ _ _ _ Ha) in H. inversion H; subst.
      eapply turn_accounts_raise; eauto. }
  rewrite (bind_run _ _ _ _ _ Ha) in H.
  destruct (iterate accounts) as [items|e] eqn:Hi.
  2:{ rewrite (bind_raise _ _ w2 w2 e) in H by reflexivity.
      inversion H; subst. eapply turn_accounts_not_iterable; eauto. }
  rewrite (bind_run _ _ w2 w2 items) in H by reflexivity.
  destruct (collect_transactions llm json_loads self user_profile items w2)
    as [[all|e] w3] eqn:Hc; unfold collect_transactions in Hc;
    pose proof (collect_transactions_run _ _ _ _ _ _ Hc) as Hb; cbv beta iota in Hb.
  2:{ rewrite (bind_raise _ _ _ _ _ Hc) in H. inversion H; subst.
      eapply turn_batches_raise; eauto. }
  rewrite (bind_run _ _ _ _ _ Hc) in H.
  destruct Hb as (batches & Hb & ->). simpl in H.
  destruct (insert_data db_fault self user_profile accounts (PyList (concat batches)) w3)
    as [[[]|e] w4] eqn:Hins.
  2:{ rewrite (bind_raise _ _ _ _ _ Hins) in H. inversion H; subst.
      eapply turn_persister_raises; eauto. }
  rewrite (bind_run _ _ _ _ _ Hins) in H.
  unfold print, emit in H. inversion H; subst.
  eapply turn_completed; eauto.
Qed.

Lemma users_loop_turns (count : nat) :
  forall (first : nat) (w : world),
    turns llm json_loads db_fault self num_users first count w
          (fst (for_each (seq first count)
                         (generate_user llm json_loads db_fault self num_users) w))
          (snd (for_each (seq first count)
                         (generate_user llm json_loads db_fault self num_users) w)).
Proof.
  induction count as [|count IH]; intros first w; cbn [seq for_each].
  - constructor.
  - destruct (generate_user llm json_loads db_fault self num_users first w)
      as [[[]|e] w1] eqn:Hg.
    + rewrite (bind_run _ _ _ _ _ Hg).
      eapply turns_next; [apply generate_user_turn; exact Hg | apply IH].
    + rewrite (bind_raise _ _ _ _ _ Hg). simpl.
      apply turns_abort. apply generate_user_turn. exact Hg.
Qed.

Lemma generate_all_data_orchestrated (w : world) :
  orchestrated llm json_loads db_fault self num_users w
    (fst (generate_all_data llm json_loads db_fault self num_users w))
    (snd (generate_all_data llm json_loads db_fault self num_users w)).
Proof.
  unfold generate_all_data, bind.
  destruct (create_tables db_fault self w) as [[[]|e] w1] eqn:Hc.
  - eapply orchestrated_turns; [exact Hc | apply users_loop_turns].
  - simpl. apply orchestrated_schema_raises. exact Hc.
Qed.

(** A schema initialisation that succeeds has made exactly its eight
    calls, and has left the three tables behind. *)
Lemma create_tables_ok (w w1 : world) :
  create_tables db_fault self w = (Ok tt, w1) ->
  trace w1 = trace w ++ schema_events self /\
  session w1 = None /\
  Forall (fun name => assoc name (tables w1) <> None) schema_tables.
Proof.
  intros H. unfold create_tables in H.
  destruct (db_fault (clock w)) as [e|] eqn:Hf.
  { rewrite (connected_fail _ _ _ _ _ Hf) in H. discriminate. }
  rewrite (connected_run _ _ _ _ Hf) in H.
  match type of H with (fst ?x, _) = _ => destruct x as [r wb] eqn:Hb end.
  simpl in H. inversion H; subst r w1; clear H.
  apply bind_ok in Hb as ([] & wa & Ha & Hb).
  apply (execute_create_ok _ _ _ _ _ _ (in_session_opened _ _)) in Ha
    as (cat1 & seqs1 & Hc1 & ->).
  apply bind_ok in Hb as ([] & wa & Ha & Hb).
  apply (execute_create_ok _ _ _ _ _ _ (in_session_executed _ _ _ _ _)) in Ha
    as (cat2 & seqs2 & Hc2 & ->).
  apply bind_ok in Hb as ([] & wa & Ha & Hb).
  apply (execute_create_ok _ _ _ _ _ _ (in_session_executed _ _ _ _ _)) in Ha
    as (cat3 & seqs3 & Hc3 & ->).
  rewrite (commit_run _ _ _ (in_session_executed _ _ _ _ _)) in Hb.
  destruct (db_fault _) in Hb; [discriminate|].
  inversion Hb; subst wb; clear Hb. simpl in Hc1, Hc2, Hc3.
  destruct (create_table_ok _ _ _ _ _ _ Hc1) as (Hu1 & Hk1 & Hd1).
  destruct (create_table_ok _ _ _ _ _ _ Hc2) as (Ha2 & Hk2 & Hd2).
  destruct (create_table_ok _ _ _ _ _ _ Hc3) as (Ht3 & Hk3 & Hd3).
  split; [|split].
  - simpl. unfold schema_events. rewrite <- !app_assoc. reflexivity.
  - reflexivity.
  - simpl. repeat constructor; auto.
Qed.

(** C5: for every user count, [generate_all_data] is the orchestrated
    run: the schema is initialised first, and a failure there ends the
    run; then come [num_users] iterations in sequence (none for a count
    that is not positive), each one starting in the world the previous
    one left after its completion line; an iteration generates the
    profile, the accounts from that profile, one batch per account from
    the account and the profile, hands the profile, the accounts and all
    the batches together to the persister, and prints the completion
    line; whichever step raises, the run raises that exception in the
    world that step left, and nothing follows.  Read as calls, the run is
    accepted by the automaton of the orchestrator, on which the three
    tables are created in order and committed before the first progress
    line, and every user is persisted (the user, then account after
    account with its transactions) and committed before the next one is
    announced; the run returns normally exactly when all the users have
    been completed.  A schema initialisation that succeeds has made
    exactly its eight calls and left the three tables.  In an iteration
    that completes, the profile is the decoded reply to the profile
    request, the accounts are the decoded reply to the accounts request
    built from that profile, there is one transactions request per
    account, in order, the batches are the decoded replies to these
    requests, and the persister is called right after the last request
    with that profile, those accounts and the concatenation of all these
    batches, the completion line being the one call that follows it. *)
Theorem generate_all_data_order (w : world) :
  orchestrated llm json_loads db_fault self num_users w
    (fst (generate_all_data llm json_loads db_fault self num_users w))
    (snd (generate_all_data llm json_loads db_fault self num_users w)) /\
  (exists added p,
      trace (snd (generate_all_data llm json_loads db_fault self num_users w))
      = trace w ++ added /\
      run (orchestration num_users) PStart added = Some p /\
      (fst (generate_all_data llm json_loads db_fault self num_users w) = Ok tt
       <-> p = PReady (Z.to_nat num_users))) /\
  (forall w1,
      create_tables db_fault self w = (Ok tt, w1) ->
      trace w1 = trace w ++ schema_events self /\
      session w1 = None /\
      Forall (fun name => assoc name (tables w1) <> None) schema_tables) /\
  (forall i w',
      turn llm json_loads db_fault self num_users i w (Ok tt) w' ->
      exists user_profile income accounts items sent batches w2,
        decoded llm json_loads (clock w + 1) profile_request = Ok user_profile /\
        subscript user_profile "income_bracket" = Ok income /\
        decoded llm json_loads (clock w + 2) (accounts_request income) = Ok accounts /\
        iterate accounts = Ok items /\
        Forall2 (batch_request user_profile) items sent /\
        replies llm json_loads (clock w + 3) sent batches /\
        insert_data db_fault self user_profile accounts (PyList (concat batches))
          (logged ([EvPrint (started_line num_users i);
                    EvMessagesCreate profile_request;
                    EvMessagesCreate (accounts_request income)]
                   ++ map EvMessagesCreate sent) w)
        = (Ok tt, w2) /\
        w' = logged [EvPrint (completed_line i)] w2).
Proof.
  split; [apply generate_all_data_orchestrated|].
  split; [|split].
  - destruct (generate_all_data_moves w) as (added & p & Ht & Hr & Hl).
    exists added, p. split; [exact Ht|]. split; [exact Hr|].
    unfold lands in Hl.
    destruct (fst (generate_all_data llm json_loads db_fault self num_users w))
      as [[]|e].
    + split; auto.
    + split; [discriminate|]. intros ->. discriminate.
  - intros w1. apply create_tables_ok.
  - intros i w' H.
    inversion H as [ | | | |
                     | user_profile accounts items batches w1 w2 w3 w4
                         Hp Ha Hi Hb Hins Hr Hw ].
    subst w'.
    rewrite generate_user_profile_run in Hp. inversion Hp as [[Hd Hw1]].
    rewrite clock_logged in Hd. simpl in Hd.
    apply generate_accounts_ok in Ha as (income & Hinc & Hda & Hw2).
    rewrite <- Hw1, clock_logged, clock_logged in Hda. simpl in Hda.
    apply batches_generated_replies in Hb as (sent & Hf & Hrep & Hw3).
    rewrite Hw2, <- Hw1, !clock_logged in Hrep. simpl in Hrep.
    rewrite Hw3, Hw2, <- Hw1, !logged_app in Hins. simpl in Hins.
    exists user_profile, income, accounts, items, sent, batches, w4.
    replace (clock w + 1 + 1)%nat with (clock w + 2)%nat in * by lia.
    replace (clock w + 2 + 1)%nat with (clock w + 3)%nat in * by lia.
    repeat split; auto.
Qed.

End Orchestrator.

Lemma generate_all_data_order_witness :
  exists user_profile income accounts items sent batches w2,
    decoded stub_llm stub_loads (clock ready + 1) profile_request = Ok user_profile /\
    subscript user_profile "income_bracket" = Ok income /\
    decoded stub_llm stub_loads (clock ready + 2) (accounts_request income)
    = Ok accounts /\
    iterate accounts = Ok items /\
    Forall2 (batch_request user_profile) items sent /\
    replies stub_llm stub_loads (clock ready + 3) sent batches /\
    insert_data no_fault (init []) user_profile accounts (PyList (concat batches))
      (logged ([EvPrint (started_line 1 0);
                EvMessagesCreate profile_request;
                EvMessagesCreate (accounts_request income)]
               ++ map EvMessagesCreate sent) ready)
    = (Ok tt, w2) /\
    snd (generate_user stub_llm stub_loads no_fault (init []) 1 0 ready)
    = logged [EvPrint (completed_line 0)] w2.
Proof.
  destruct (generate_all_data_order stub_llm stub_loads no_fault (init []) 1 ready)
    as (_ & _ & _ & H).
  apply (H 0%nat). apply generate_user_turn. vm_compute. reflexivity.
Defined.

(** * Further properties *)

(** ** Schema initialisation on an existing database *)

Lemma create_table_kept (cat cat' : catalog) (seqs seqs' : counters) (name : string)
  (cols : list column) :
  create_table cat seqs name cols = Ok (cat', seqs') ->
  tables_kept cat cat' /\ (forall n, rows_of cat' n = rows_of cat n).
Proof.
  unfold create_table. destruct (assoc name cat) as [t|] eqn:E.
  - intros H; inversion H; subst. split; [intros n t' Hn; exact Hn | reflexivity].
  - destruct (forallb (references_ok cat) cols); [|discriminate].
    intros H; inversion H; subst; clear H. split.
    + intros n t' Hn. now rewrite assoc_app, Hn.
    + intros n. unfold rows_of. rewrite assoc_app.
      destruct (assoc n cat) as [t'|] eqn:En; [reflexivity|].
      simpl. destruct (String.eqb n name); reflexivity.
Qed.

Lemma tables_kept_trans (c1 c2 c3 : catalog) :
  tables_kept c1 c2 -> tables_kept c2 c3 -> tables_kept c1 c3.
Proof. intros H1 H2 n t Hn. auto. Qed.

Section SchemaOutcomes.

Variable db_fault : nat -> option exn.

(** One CREATE TABLE statement of [create_tables]: it fails and leaves the
    committed tables alone, or it succeeds as [create_table] says. *)
Lemma execute_create_cases (name : string) (cols : list column) (w : world)
  (cat : catalog) :
  in_session w cat ->
  (exists e w1,
      cur_execute db_fault (CreateTableIfNotExists name cols) [] w = (Raise e, w1) /\
      tables w1 = tables w) \/
  (exists cat' seqs',
      create_table cat (sequences w) name cols = Ok (cat', seqs') /\
      cur_execute db_fault (CreateTableIfNotExists name cols) [] w =
      (Ok tt, executed (EvExecute (CreateTableIfNotExists name cols) []) cat' seqs'
                       None w)).
Proof.
  intros Hs. rewrite (cur_execute_run _ _ _ _ _ Hs).
  destruct (db_fault (clock w)) as [e|]; [left; eauto|].
  unfold run_statement.
  destruct (create_table cat (sequences w) name cols) as [[c s]|e]; simpl.
  - right. eauto.
  - left. eauto.
Qed.

(** The three statements and the commit of [create_tables], on an open
    connection whose view is the committed catalog: either the body raises
    and nothing is committed, or it commits a catalog that keeps every
    table and every row that was there. *)
Lemma create_body_outcome (w : world) :
  in_session w (tables w) ->
  let body := cur_execute db_fault create_users [] ;;
              cur_execute db_fault create_accounts [] ;;
              cur_execute db_fault create_transactions [] ;;
              conn_commit db_fault in
  (exists e, fst (body w) = Raise e /\ tables (snd (body w)) = tables w) \/
  (fst (body w) = Ok tt /\
   tables_kept (tables w) (tables (snd (body w))) /\
   forall n, rows_of (tables (snd (body w))) n = rows_of (tables w) n).
Proof.
  intros Hs body. unfold body, bind, create_users, create_accounts, create_transactions.
  destruct (execute_create_cases "users" users_columns w _ Hs)
    as [(e & w1 & -> & Ht)|(c1 & s1 & Hc1 & ->)];
    [left; exists e; simpl; rewrite Ht; auto|].
  set (x1 := executed _ c1 s1 None w).
  destruct (execute_create_cases "accounts" accounts_columns x1 c1
              (in_session_executed _ _ _ _ _))
    as [(e & w1 & -> & Ht)|(c2 & s2 & Hc2 & ->)];
    [left; exists e; simpl; rewrite Ht; auto|].
  set (x2 := executed _ c2 s2 None x1).
  destruct (execute_create_cases "transactions" transactions_columns x2 c2
              (in_session_executed _ _ _ _ _))
    as [(e & w1 & -> & Ht)|(c3 & s3 & Hc3 & ->)];
    [left; exists e; simpl; rewrite Ht; auto|].
  set (x3 := executed _ c3 s3 None x2).
  rewrite (commit_run _ x3 c3) by apply in_session_executed.
  destruct (db_fault (clock x3)) as [e|]; [left; exists e; simpl; auto|].
  right. simpl.
  destruct (create_table_kept _ _ _ _ _ _ Hc1) as (K1 & R1).
  destruct (create_table_kept _ _ _ _ _ _ Hc2) as (K2 & R2).
  destruct (create_table_kept _ _ _ _ _ _ Hc3) as (K3 & R3).
  split; [reflexivity|]. split.
  - eapply tables_kept_trans; [exact K1|]. eapply tables_kept_trans; eauto.
  - intros n. now rewrite R3, R2, R1.
Qed.

(** X1: [create_tables] never alters what is already in the database:
    whatever the outcome, every table that existed is still there with the
    same columns and rows, and no table has gained or lost a row. *)
Theorem create_tables_keeps_existing (self : generator) (w : world) :
  tables_kept (tables w) (tables (snd (create_tables db_fault self w))) /\
  forall name,
    rows_of (tables (snd (create_tables db_fault self w))) name
    = rows_of (tables w) name.
Proof.
  unfold create_tables.
  destruct (db_fault (clock w)) as [e|] eqn:Hf.
  - rewrite (connected_fail _ _ _ _ _ Hf). simpl.
    split; [intros n t Hn; exact Hn | reflexivity].
  - rewrite (connected_run _ _ _ _ Hf). simpl.
    destruct (create_body_outcome (opened (db_params self) w) (in_session_opened _ _))
      as [(e & _ & Ht)|(_ & Hk & Hr)].
    + simpl in Ht. rewrite Ht. split; [intros n t Hn; exact Hn | reflexivity].
    + exact (conj Hk Hr).
Qed.

(** X2: [create_tables] is all or nothing: when it raises, at whichever
    statement, the committed tables are exactly those found at entry. *)
Theorem create_tables_failure_commits_nothing (self : generator) (w w' : world)
  (e : exn) :
  create_tables db_fault self w = (Raise e, w') ->
  tables w' = tables w.
Proof.
  unfold create_tables. intros H.
  destruct (db_fault (clock w)) as [e0|] eqn:Hf.
  - rewrite (connected_fail _ _ _ _ _ Hf) in H. inversion H. reflexivity.
  - rewrite (connected_run _ _ _ _ Hf) in H.
    destruct (create_body_outcome (opened (db_params self) w) (in_session_opened _ _))
      as [(e1 & _ & Ht)|(Hok & _ & _)].
    + inversion H. simpl. exact Ht.
    + inversion H as [[Hr Hw]]. rewrite Hok in Hr. discriminate.
Qed.

End SchemaOutcomes.

Lemma create_tables_failure_commits_nothing_witness :
  tables (snd (create_tables no_fault (init []) legacy)) = tables legacy.
Proof.
  apply (create_tables_failure_commits_nothing no_fault (init []) legacy
           (snd (create_tables no_fault (init []) legacy)) ProgrammingError).
  vm_compute. reflexivity.
Defined.

(** ** A user record with a missing field *)

Section IncompleteUser.

Variable db_fault : nat -> option exn.

Lemma insert_rows_incomplete_user (user_data accounts_data transactions_data : value)
  (e : exn) (w : world) :
  user_tuple user_data = Raise e ->
  insert_rows db_fault user_data accounts_data transactions_data w = (Raise e, w).
Proof.
  unfold user_tuple, insert_rows, bind, lift.
  destruct (subscript user_data "name"); simpl; [|intros H; inversion H; reflexivity].
  destruct (subscript user_data "age"); simpl; [|intros H; inversion H; reflexivity].
  destruct (subscript user_data "occupation"); simpl;
    [|intros H; inversion H; reflexivity].
  destruct (subscript user_data "income_bracket"); simpl;
    [discriminate | intros H; inversion H; reflexivity].
Qed.

(** X3: when the user record lacks one of name, age, occupation and
    income_bracket (or is no dict at all), [insert_data] raises the error
    of the first failing lookup after opening the connection and before
    sending any statement: the connection is opened and closed, no sequence
    value is drawn and nothing is committed. *)
Theorem insert_data_incomplete_user (self : generator)
  (user_data accounts_data transactions_data : value) (e : exn) (w : world) :
  db_fault (clock w) = None ->
  user_tuple user_data = Raise e ->
  insert_data db_fault self user_data accounts_data transactions_data w =
  (Raise e, closed (opened (db_params self) w)).
Proof.
  intros Hf Hu. unfold insert_data. rewrite (connected_run _ _ _ _ Hf).
  unfold bind.
  now rewrite !(insert_rows_incomplete_user _ _ _ _ _ Hu).
Qed.

End IncompleteUser.

Lemma insert_data_incomplete_user_witness :
  insert_data no_fault (init []) ageless (PyList [checking]) (PyList [groceries]) ready =
  (Raise (KeyError "age"), closed (opened (db_params (init [])) ready)).
Proof.
  apply (insert_data_incomplete_user no_fault (init []) ageless (PyList [checking])
           (PyList [groceries]) (KeyError "age") ready); reflexivity.
Defined.

(** ** What the persister sends *)

Lemma omap_length {A B : Type} (f : A -> outcome B) (l : list A) (l' : list B) :
  omap f l = Ok l' -> length l' = length l.
Proof.
  revert l'. induction l as [|a l IH]; intros l'; simpl.
  - intros H; inversion H. reflexivity.
  - destruct (f a) as [b|e]; simpl; [|discriminate].
    destruct (omap f l) as [bs|e]; simpl; [|discriminate].
    intros H; inversion H; subst. simpl. f_equal. now apply IH.
Qed.

Section Sent.

Variable db_fault : nat -> option exn.

Lemma insert_account_rows_sent (user_id transactions_data account : value)
  (w w' : world) (cat : catalog) :
  in_session w cat ->
  insert_account_rows db_fault user_id transactions_data account w = (Ok tt, w') ->
  exists cat' x,
    grown cat cat' [] [wa_row x] (wa_transactions x) /\
    sent_account user_id transactions_data account x /\
    linked cat user_id x /\
    in_session w' cat' /\
    tables w' = tables w /\
    trace w' = trace w ++ account_events user_id x.
Proof.
  intros Hs H. unfold insert_account_rows in H.
  apply bind_ok in H as (kind & w1 & H1 & H). apply lift_ok in H1 as [Hkind ->].
  apply bind_ok in H as (inst & w1 & H1 & H). apply lift_ok in H1 as [Hinst ->].
  apply bind_ok in H as (bal & w1 & H1 & H). apply lift_ok in H1 as [Hbal ->].
  apply bind_ok in H as ([] & w1 & H1 & H).
  apply (execute_insert_ok _ _ _ _ _ _ _ _ Hs) in H1
    as (cat1 & seqs1 & arow & aid & Happ1 & Hb1 & Hid & ->).
  apply bind_ok in H as (row & w2 & H2 & H).
  rewrite fetchone_executed in H2. inversion H2; subst row w2; clear H2.
  apply bind_ok in H as (aid' & w3 & H3 & H). apply lift_ok in H3 as [H3 ->].
  simpl in H3. inversion H3; subst aid'; clear H3.
  apply bind_ok in H as (txns & w3 & H3 & H). apply lift_ok in H3 as [Htxns ->].
  apply bind_ok in H as (argslist & w3 & H3 & H). apply lift_ok in H3 as [Hargs ->].
  apply (execute_values_ok _ _ _ _ _ _ _ cat1) in H; [|apply in_session_executed].
  destruct H as (cat2 & trows & Happ2 & Hall & Hs' & Htab & Htr).
  exists cat2,
    {| wa_id := aid; wa_row := arow; wa_transactions := trows;
       wa_details := [kind; inst; bal]; wa_argslist := argslist |}.
  assert (Hheads : Forall (fun args => hd_error args = Some aid) argslist).
  { eapply omap_forall; [|exact Hargs]. intros a b. apply transaction_tuple_head. }
  split; [|split; [|split; [|split; [|split]]]]; simpl.
  - apply (grown_trans cat cat1 cat2 [] [arow] [] [] [] trows).
    + now apply grown_accounts.
    + now apply grown_transactions.
  - unfold sent_account, account_tuple; simpl. rewrite Hkind, Hinst, Hbal. simpl.
    split; [reflexivity|]. split.
    + exists txns. auto.
    + symmetry. exact (Forall2_length Hall).
  - unfold linked; simpl. split; [|split; [|split]].
    + apply Hb1. reflexivity.
    + exact Hid.
    + exact Hheads.
    + clear - Hall Hheads Happ1.
      induction Hall as [|args row argslist rows Hh Hall IH]; constructor.
      * rewrite <- (field_appended _ _ _ "transactions" "account_id" _ row Happ1).
        apply Hh. inversion Hheads as [|? ? Hhd Htl]; subst.
        destruct args as [|a0 args]; [discriminate|]. simpl in Hhd.
        inversion Hhd; subst. simpl. reflexivity.
      * apply IH. now inversion Hheads.
  - exact Hs'.
  - rewrite Htab. reflexivity.
  - rewrite Htr. unfold account_events, executed; simpl.
    now rewrite <- !app_assoc.
Qed.

Lemma insert_accounts_sent (user_id transactions_data : value) (accounts : list value) :
  forall (w w' : world) (cat : catalog),
    in_session w cat ->
    for_each accounts (insert_account_rows db_fault user_id transactions_data) w
    = (Ok tt, w') ->
    exists cat' written,
      grown cat cat' [] (map wa_row written) (flat_map wa_transactions written) /\
      Forall2 (sent_account user_id transactions_data) accounts written /\
      Forall (linked cat user_id) written /\
      in_session w' cat' /\
      tables w' = tables w /\
      trace w' = trace w ++ flat_map (account_events user_id) written.
Proof.
  induction accounts as [|account rest IH]; intros w w' cat Hs H; simpl in H.
  - inversion H; subst w'. exists cat, []. simpl. rewrite app_nil_r.
    split; [apply grown_refl|]. split; [constructor|]. split; [constructor|]. auto.
  - apply bind_ok in H as ([] & w1 & H1 & H).
    destruct (insert_account_rows_sent _ _ _ _ _ _ Hs H1)
      as (cat1 & x & Hg1 & Hst & Hl1 & Hs1 & Ht1 & Htr1).
    destruct (IH _ _ _ Hs1 H)
      as (cat2 & written & Hg2 & Hall & Hl2 & Hs2 & Ht2 & Htr2).
    exists cat2, (x :: written). simpl.
    split; [|split; [|split; [|split; [|split]]]].
    + apply (grown_trans cat cat1 cat2 [] [wa_row x] (wa_transactions x) []
               (map wa_row written) (flat_map wa_transactions written) Hg1 Hg2).
    + constructor; assumption.
    + constructor; [exact Hl1|].
      eapply Forall_impl; [|exact Hl2]. intros y. apply (linked_grown _ _ _ _ _ _ _ Hg1).
    + exact Hs2.
    + now rewrite Ht2.
    + rewrite Htr2, Htr1. now rewrite <- app_assoc.
Qed.

Lemma insert_rows_sent (user_data accounts_data transactions_data : value)
  (w w' : world) (cat : catalog) :
  in_session w cat ->
  insert_rows db_fault user_data accounts_data transactions_data w = (Ok tt, w') ->
  exists cat' user_id user_row details accounts written,
    user_tuple user_data = Ok details /\
    iterate accounts_data = Ok accounts /\
    grown cat cat' [user_row] (map wa_row written) (flat_map wa_transactions written) /\
    field cat "users" "user_id" user_row = Some user_id /\
    Forall2 (sent_account user_id transactions_data) accounts written /\
    Forall (linked cat user_id) written /\
    in_session w' cat' /\
    tables w' = tables w /\
    trace w' = trace w ++ [EvExecute insert_user details; EvFetchone]
                       ++ flat_map (account_events user_id) written.
Proof.
  intros Hs H. unfold insert_rows in H.
  apply bind_ok in H as (name & w1 & H1 & H). apply lift_ok in H1 as [Hname ->].
  apply bind_ok in H as (age & w1 & H1 & H). apply lift_ok in H1 as [Hage ->].
  apply bind_ok in H as (occ & w1 & H1 & H). apply lift_ok in H1 as [Hocc ->].
  apply bind_ok in H as (inc & w1 & H1 & H). apply lift_ok in H1 as [Hinc ->].
  apply bind_ok in H as ([] & w1 & H1 & H).
  apply (execute_insert_ok _ _ _ _ _ _ _ _ Hs) in H1
    as (cat1 & seqs1 & urow & uid & Happ1 & Hb1 & Hid & ->).
  apply bind_ok in H as (row & w2 & H2 & H).
  rewrite fetchone_executed in H2. inversion H2; subst row w2; clear H2.
  apply bind_ok in H as (uid' & w3 & H3 & H). apply lift_ok in H3 as [H3 ->].
  simpl in H3. inversion H3; subst uid'; clear H3.
  apply bind_ok in H as (accounts & w3 & H3 & H). apply lift_ok in H3 as [Hacc ->].
  apply (insert_accounts_sent _ _ _ _ _ cat1) in H; [|apply in_session_executed].
  destruct H as (cat2 & written & Hg & Hall & Hl & Hs' & Htab & Htr).
  exists cat2, uid, urow, [name; age; occ; inc], accounts, written.
  assert (Hg1 : grown cat cat1 [urow] [] []) by now apply grown_users.
  split; [unfold user_tuple; rewrite Hname, Hage, Hocc, Hinc; reflexivity|].
  split; [exact Hacc|]. split; [|split; [|split; [|split; [|split; [|split]]]]].
  - apply (grown_trans cat cat1 cat2 [urow] [] [] [] _ _ Hg1 Hg).
  - exact Hid.
  - exact Hall.
  - eapply Forall_impl; [|exact Hl]. intros y. apply (linked_grown _ _ _ _ _ _ _ Hg1).
  - exact Hs'.
  - rewrite Htab. reflexivity.
  - rewrite Htr. unfold executed; simpl. now rewrite <- !app_assoc.
Qed.

Lemma insert_data_sent (self : generator)
  (user_data accounts_data transactions_data : value) (w w' : world) :
  insert_data db_fault self user_data accounts_data transactions_data w = (Ok tt, w') ->
  exists user_id user_row details accounts written,
    user_tuple user_data = Ok details /\
    iterate accounts_data = Ok accounts /\
    Forall2 (sent_account user_id transactions_data) accounts written /\
    grown (tables w) (tables w') [user_row] (map wa_row written)
          (flat_map wa_transactions written) /\
    field (tables w') "users" "user_id" user_row = Some user_id /\
    Forall (linked (tables w') user_id) written /\
    trace w' = trace w
               ++ [EvConnect (db_params self); EvCursor;
                   EvExecute insert_user details; EvFetchone]
               ++ flat_map (account_events user_id) written
               ++ [EvCommit true; EvCursorClose; EvConnClose].
Proof.
  intros H. unfold insert_data in H.
  destruct (db_fault (clock w)) as [e|] eqn:Hf.
  { rewrite (connected_fail _ _ _ _ _ Hf) in H. discriminate. }
  rewrite (connected_run _ _ _ _ Hf) in H.
  match type of H with (fst ?x, _) = _ => destruct x as [r wb] eqn:Hb end.
  simpl in H. inversion H; subst r w'; clear H.
  apply bind_ok in Hb as ([] & w1 & H1 & Hb).
  destruct (insert_rows_sent _ _ _ _ _ _ (in_session_opened _ _) H1)
    as (cat' & uid & urow & details & accounts & written
        & Hu & Hacc & Hg & Hid & Hall & Hl & Hs & Htab & Htr).
  rewrite (commit_run _ _ _ Hs) in Hb.
  destruct (db_fault (clock w1)); [discriminate|].
  inversion Hb; subst wb; clear Hb. simpl in *.
  exists uid, urow, details, accounts, written.
  split; [exact Hu|]. split; [exact Hacc|]. split; [exact Hall|].
  split; [exact Hg|]. split; [|split].
  - rewrite (field_grown _ _ _ _ _ _ _ _ Hg). exact Hid.
  - eapply Forall_impl; [|exact Hl]. intros y (H1' & H2' & H3' & H4'). unfold linked.
    rewrite !(field_grown _ _ _ _ _ _ _ _ Hg). repeat split; auto.
    eapply Forall_impl; [|exact H4']. intros row Hr. cbv beta.
    now rewrite (field_grown _ _ _ _ _ _ _ _ Hg).
  - rewrite Htr. unfold opened; simpl. rewrite <- !app_assoc. reflexivity.
Qed.


End Sent.

Lemma sent_transactions_length (user_id transactions_data : value)
  (txns accounts : list value) (written : list written_account) :
  iterate transactions_data = Ok txns ->
  Forall2 (sent_account user_id transactions_data) accounts written ->
  length (flat_map wa_transactions written) = (length accounts * length txns)%nat.
Proof.
  intros Hi Hall. induction Hall as [|account x accounts written Hst Hall IH]; simpl.
  - reflexivity.
  - rewrite length_app, IH. f_equal.
    destruct Hst as (_ & (txns' & Hi' & Hargs) & Hlen).
    rewrite Hi in Hi'. inversion Hi'; subst txns'.
    rewrite Hlen. exact (omap_length _ _ _ Hargs).
Qed.

(** X5: a call of [insert_data] that returns normally adds to
    [transactions] as many rows as the product of the number of accounts
    and the number of elements of [transactions_data]: every account
    receives the whole list. *)
Theorem insert_data_transaction_count (db_fault : nat -> option exn) (self : generator)
  (user_data accounts_data transactions_data : value) (accounts txns : list value)
  (w w' : world) :
  insert_data db_fault self user_data accounts_data transactions_data w = (Ok tt, w') ->
  iterate accounts_data = Ok accounts ->
  iterate transactions_data = Ok txns ->
  length (rows_of (tables w') "transactions") =
  (length (rows_of (tables w) "transactions") + length accounts * length txns)%nat.
Proof.
  intros H Ha Ht.
  destruct (insert_data_sent _ _ _ _ _ _ _ H)
    as (uid & urow & details & accounts' & written & _ & Ha' & Hall & Hg & _ & _ & _).
  rewrite Ha in Ha'. inversion Ha'; subst accounts'.
  destruct Hg as (_ & _ & Hrows & _). rewrite Hrows, length_app.
  now rewrite (sent_transactions_length _ _ _ _ _ Ht Hall).
Qed.

Lemma insert_data_transaction_count_witness :
  length (rows_of (tables (snd jane_persisted)) "transactions") =
  (length (rows_of (tables ready) "transactions")
   + length [checking; savings] * length [groceries; interest])%nat.
Proof.
  apply (insert_data_transaction_count no_fault (init []) jane
           (PyList [checking; savings]) (PyList [groceries; interest])
           [checking; savings] [groceries; interest] ready (snd jane_persisted)).
  - vm_compute. reflexivity.
  - reflexivity.
  - reflexivity.
Defined.


(** ** All or nothing, user by user *)

Lemma atomic_bind_keeps {A B : Type} (m : M A) (k : A -> M B) :
  keeps_tables m -> (forall a, atomic (k a)) -> atomic (bind m k).
Proof.
  intros Hm Hk w e w' H. unfold bind in H. specialize (Hm w).
  destruct (m w) as [[a|e0] w1]; simpl in Hm.
  - rewrite <- Hm. exact (Hk a _ _ _ H).
  - inversion H; subst. exact Hm.
Qed.

Lemma atomic_bind_total {A B : Type} (m : M A) (k : A -> M B) :
  atomic m -> (forall a w, exists b, fst (k a w) = Ok b) -> atomic (bind m k).
Proof.
  intros Hm Hk w e w' H. unfold bind in H.
  destruct (m w) as [[a|e0] w1] eqn:E.
  - destruct (Hk a w1) as (b & Hb). rewrite H in Hb. discriminate.
  - inversion H; subst. exact (Hm _ _ _ E).
Qed.

Lemma for_acc_keeps {A S : Type} (body : A -> S -> M S) (l : list A) :
  (forall a s, keeps_tables (body a s)) -> forall s, keeps_tables (for_acc l body s).
Proof.
  intros Hb. induction l as [|a l IH]; intros s; simpl.
  - apply ret_keeps.
  - apply bind_keeps; auto.
Qed.

Lemma emit_keeps (ev : event) : keeps_tables (emit ev).
Proof. intros w. reflexivity. Qed.

Section Turn.

Variable llm : nat -> request -> outcome string.
Variable json_loads : string -> outcome value.
Variable db_fault : nat -> option exn.
Variable self : generator.

Lemma messages_create_keeps (req : request) : keeps_tables (messages_create llm req).
Proof. intros w. reflexivity. Qed.

Lemma generate_user_profile_keeps (index : Z) :
  keeps_tables (generate_user_profile llm json_loads self index).
Proof.
  unfold generate_user_profile.
  apply bind_keeps; [apply messages_create_keeps | intros; apply lift_keeps].
Qed.

Lemma generate_accounts_keeps (user_profile : value) :
  keeps_tables (generate_accounts llm json_loads self user_profile).
Proof.
  unfold generate_accounts.
  repeat first [ apply bind_keeps; [|intros ?]
               | apply lift_keeps
               | apply messages_create_keeps ].
Qed.

Lemma generate_transactions_keeps (account user_profile : value) :
  keeps_tables (generate_transactions llm json_loads self account user_profile).
Proof.
  unfold generate_transactions.
  repeat first [ apply bind_keeps; [|intros ?]
               | apply lift_keeps
               | apply messages_create_keeps ].
Qed.

Lemma collect_transactions_keeps (user_profile : value) (accounts : list value) :
  keeps_tables (collect_transactions llm json_loads self user_profile accounts).
Proof.
  unfold collect_transactions. apply for_acc_keeps. intros account acc.
  apply bind_keeps; [apply generate_transactions_keeps | intros transactions].
  apply bind_keeps; [apply lift_keeps | intros items].
  apply ret_keeps.
Qed.

Lemma insert_data_atomic (user_data accounts_data transactions_data : value) :
  atomic (insert_data db_fault self user_data accounts_data transactions_data).
Proof.
  intros w e w' H. unfold insert_data in H.
  destruct (db_fault (clock w)) as [e0|] eqn:Hf.
  { rewrite (connected_fail _ _ _ _ _ Hf) in H. inversion H. reflexivity. }
  rewrite (connected_run _ _ _ _ Hf) in H.
  set (start := opened (db_params self) w) in *.
  assert (Hk := insert_rows_keeps db_fault user_data accounts_data transactions_data
                  start).
  unfold bind in H.
  destruct (insert_rows db_fault user_data accounts_data transactions_data start)
    as [[[]|e1] w1] eqn:Hrows; simpl in Hk.
  - destruct (insert_rows_ok db_fault _ _ _ _ _ _ (in_session_opened _ _) Hrows)
      as (cat' & _ & _ & _ & _ & _ & _ & _ & _ & _ & _ & Hs & _ & _).
    rewrite (commit_run _ _ _ Hs) in H.
    destruct (db_fault (clock w1)); [|discriminate].
    inversion H. simpl. exact Hk.
  - inversion H. simpl. exact Hk.
Qed.

Lemma generate_user_atomic (num_users : Z) (i : nat) :
  atomic (generate_user llm json_loads db_fault self num_users i).
Proof.
  unfold generate_user, print.
  apply atomic_bind_keeps; [apply emit_keeps | intros _].
  apply atomic_bind_keeps; [apply generate_user_profile_keeps | intros user_profile].
  apply atomic_bind_keeps; [apply generate_accounts_keeps | intros accounts].
  apply atomic_bind_keeps; [apply lift_keeps | intros items].
  apply atomic_bind_keeps; [apply collect_transactions_keeps | intros all].
  apply atomic_bind_total; [apply insert_data_atomic|].
  intros [] w. exists tt. reflexivity.
Qed.

(** X6: a turn of the loop over the users is all or nothing: when it
    raises, whether in a generation step, in an insert or at the commit,
    the committed tables are exactly those the turn started from; nothing
    of the user stays behind. *)
Theorem generate_user_all_or_nothing (num_users : Z) (i : nat) (w w' : world) (e : exn) :
  generate_user llm json_loads db_fault self num_users i w = (Raise e, w') ->
  tables w' = tables w.
Proof. apply generate_user_atomic. Qed.

End Turn.

Lemma generate_user_all_or_nothing_witness :
  tables (snd interrupted_turn) = tables ready.
Proof.
  apply (generate_user_all_or_nothing stub_llm stub_loads flaky (init []) 1 0 ready
           (snd interrupted_turn) OperationalError).
  vm_compute. reflexivity.
Defined.

(** ** References between the tables *)

Lemma maintains_keeps {A : Type} (P : catalog -> Prop) (m : M A) :
  keeps_tables m -> maintains P m.
Proof. intros Hk w HP. now rewrite Hk. Qed.

Lemma maintains_bind {A B : Type} (P : catalog -> Prop) (m : M A) (k : A -> M B) :
  maintains P m -> (forall a, maintains P (k a)) -> maintains P (bind m k).
Proof.
  intros Hm Hk w HP. unfold bind. specialize (Hm w HP).
  destruct (m w) as [[a|e] w1]; simpl in *; [now apply Hk | exact Hm].
Qed.

Lemma maintains_for_each {A : Type} (P : catalog -> Prop) (body : A -> M unit)
  (l : list A) :
  (forall a, maintains P (body a)) -> maintains P (for_each l body).
Proof.
  intros Hb. induction l as [|a l IH]; simpl.
  - intros w HP. exact HP.
  - apply maintains_bind; auto.
Qed.

Lemma kept_columns (cat cat' : catalog) (tn : string) (row : list value) :
  tables_kept cat cat' -> In row (rows_of cat tn) -> columns_of cat' tn = columns_of cat tn.
Proof.
  intros Hk Hin. unfold rows_of, columns_of in *.
  destruct (assoc tn cat) as [t|] eqn:E; [|contradiction].
  now rewrite (Hk _ _ E).
Qed.

Lemma refers_kept (cat cat' : catalog) (tn cn tn' cn' : string) (row : list value) :
  tables_kept cat cat' ->
  (forall n, rows_of cat' n = rows_of cat n) ->
  In row (rows_of cat tn) ->
  refers cat tn cn row tn' cn' -> refers cat' tn cn row tn' cn'.
Proof.
  intros Hk Hr Hin (row' & v & Hin' & Hf & Hf'). exists row', v.
  rewrite Hr. split; [exact Hin'|]. unfold field in *.
  rewrite (kept_columns _ _ _ _ Hk Hin), (kept_columns _ _ _ _ Hk Hin'). auto.
Qed.

Lemma intact_kept (cat cat' : catalog) :
  tables_kept cat cat' ->
  (forall n, rows_of cat' n = rows_of cat n) ->
  intact cat -> intact cat'.
Proof.
  intros Hk Hr (Ha & Ht). split; intros row Hin; rewrite Hr in Hin.
  - apply (refers_kept cat); auto.
  - apply (refers_kept cat); auto.
Qed.

Lemma refers_grown (cat cat' : catalog) (us accs ts : list (list value))
  (tn cn tn' cn' : string) (row : list value) :
  grown cat cat' us accs ts ->
  (forall r, In r (rows_of cat tn') -> In r (rows_of cat' tn')) ->
  refers cat tn cn row tn' cn' -> refers cat' tn cn row tn' cn'.
Proof.
  intros Hg Hsub (row' & v & Hin' & Hf & Hf'). exists row', v.
  rewrite !(field_grown _ _ _ _ _ _ _ _ Hg). auto.
Qed.

Lemma intact_grown (cat cat' : catalog) (user_id : value) (user_row : list value)
  (written : list written_account) :
  grown cat cat' [user_row] (map wa_row written) (flat_map wa_transactions written) ->
  field cat "users" "user_id" user_row = Some user_id ->
  Forall (linked cat user_id) written ->
  intact cat -> intact cat'.
Proof.
  intros Hg Hid Hl (Ha & Ht).
  pose proof Hg as (Hu & Hacc & Htx & Hc).
  rewrite Forall_forall in Hl.
  split; intros row Hin.
  - rewrite Hacc in Hin. apply in_app_or in Hin as [Hin|Hin].
    + apply (refers_grown _ _ _ _ _ _ _ _ _ _ Hg); [|now apply Ha].
      intros r Hr. rewrite Hu. apply in_or_app. now left.
    + apply in_map_iff in Hin as (x & <- & Hx).
      destruct (Hl x Hx) as (H1 & _).
      exists user_row, user_id. rewrite Hu, !(field_grown _ _ _ _ _ _ _ _ Hg).
      split; [apply in_or_app; right; now left | auto].
  - rewrite Htx in Hin. apply in_app_or in Hin as [Hin|Hin].
    + apply (refers_grown _ _ _ _ _ _ _ _ _ _ Hg); [|now apply Ht].
      intros r Hr. rewrite Hacc. apply in_or_app. now left.
    + apply in_flat_map in Hin as (x & Hx & Hin).
      destruct (Hl x Hx) as (_ & H2 & _ & H4). rewrite Forall_forall in H4.
      exists (wa_row x), (wa_id x). rewrite Hacc, !(field_grown _ _ _ _ _ _ _ _ Hg).
      split; [apply in_or_app; right; now apply in_map|].
      split; [now apply H4 | exact H2].
Qed.

Lemma create_tables_kept (db_fault : nat -> option exn) (self : generator) (w : world) :
  tables_kept (tables w) (tables (snd (create_tables db_fault self w))) /\
  forall name,
    rows_of (tables (snd (create_tables db_fault self w))) name
    = rows_of (tables w) name.
Proof.
  unfold create_tables.
  destruct (db_fault (clock w)) as [e|] eqn:Hf.
  - rewrite (connected_fail _ _ _ _ _ Hf). simpl.
    split; [intros n t Hn; exact Hn | reflexivity].
  - rewrite (connected_run _ _ _ _ Hf). simpl.
    destruct (create_body_outcome db_fault (opened (db_params self) w)
                (in_session_opened _ _))
      as [(e & _ & Ht)|(_ & Hk & Hr)].
    + simpl in Ht. rewrite Ht. split; [intros n t Hn; exact Hn | reflexivity].
    + exact (conj Hk Hr).
Qed.

Section References.

Variable llm : nat -> request -> outcome string.
Variable json_loads : string -> outcome value.
Variable db_fault : nat -> option exn.
Variable self : generator.

Lemma insert_data_maintains_intact (user_data accounts_data transactions_data : value) :
  maintains intact (insert_data db_fault self user_data accounts_data transactions_data).
Proof.
  intros w Hi.
  destruct (insert_data db_fault self user_data accounts_data transactions_data w)
    as [[[]|e] w'] eqn:H; simpl.
  - destruct (insert_data_ok db_fault _ _ _ _ _ _ H)
      as (uid & urow & details & accounts & written & _ & _ & Hg & Hid & Hl & _ & _).
    exact (intact_grown _ _ _ _ _ Hg Hid Hl Hi).
  - now rewrite (insert_data_atomic db_fault self _ _ _ _ _ _ H).
Qed.

Lemma generate_user_maintains_intact (num_users : Z) (i : nat) :
  maintains intact (generate_user llm json_loads db_fault self num_users i).
Proof.
  unfold generate_user, print.
  apply maintains_bind; [apply maintains_keeps, emit_keeps | intros _].
  apply maintains_bind;
    [apply maintains_keeps, generate_user_profile_keeps | intros user_profile].
  apply maintains_bind;
    [apply maintains_keeps, generate_accounts_keeps | intros accounts].
  apply maintains_bind; [apply maintains_keeps, lift_keeps | intros items].
  apply maintains_bind;
    [apply maintains_keeps, collect_transactions_keeps | intros all].
  apply maintains_bind; [apply insert_data_maintains_intact | intros _].
  apply maintains_keeps, emit_keeps.
Qed.

(** X7: the program keeps the references between the tables intact: if,
    before a run of [generate_all_data], every account row carries the
    user_id of some user row and every transaction row the account_id of
    some account row, the same holds of the committed tables after the run,
    however many users were completed and wherever the run may have
    failed. *)
Theorem generate_all_data_keeps_references (num_users : Z) (w : world) :
  intact (tables w) ->
  intact (tables (snd (generate_all_data llm json_loads db_fault self num_users w))).
Proof.
  revert w. change (maintains intact
                      (generate_all_data llm json_loads db_fault self num_users)).
  unfold generate_all_data. apply maintains_bind.
  - intros w Hi. destruct (create_tables_kept db_fault self w) as (Hk & Hr).
    exact (intact_kept _ _ Hk Hr Hi).
  - intros _. apply maintains_for_each. intros i.
    apply generate_user_maintains_intact.
Qed.

End References.

Lemma generate_all_data_keeps_references_witness :
  intact (tables (snd (generate_all_data stub_llm stub_loads flaky (init []) 3
                         (snd jane_persisted)))).
Proof.
  apply (generate_all_data_keeps_references stub_llm stub_loads flaky (init []) 3
           (snd jane_persisted)).
  split; intros row Hin; vm_compute in Hin;
    repeat (destruct Hin as [<-|Hin]; [eexists; eexists; vm_compute; eauto|]);
    contradiction.
Defined.

(** ** Completed users and committed users *)

Lemma keeps_at {A : Type} (m : M A) (w w1 : world) (r : outcome A) :
  keeps_tables m -> m w = (r, w1) -> tables w1 = tables w.
Proof. intros Hk H. specialize (Hk w). now rewrite H in Hk. Qed.

Lemma params_eqb_refl (a : list (string * string)) : params_eqb a a = true.
Proof.
  induction a as [|[k v] a IH]; simpl; [reflexivity|].
  now rewrite !String.eqb_refl, IH.
Qed.

Lemma params_eqb_eq (a b : list (string * string)) : params_eqb a b = true -> a = b.
Proof.
  revert b. induction a as [|[k v] a IH]; intros [|[k' v'] b]; simpl;
    try discriminate; [reflexivity|].
  intros H. apply andb_prop in H as [H Hr]. apply andb_prop in H as [Hk Hv].
  apply String.eqb_eq in Hk. apply String.eqb_eq in Hv.
  now rewrite Hk, Hv, (IH _ Hr).
Qed.

Lemma run_tally (evs : list event) (count : nat) :
  run tally count evs = Some (count + length (filter is_completion evs))%nat.
Proof.
  revert count. induction evs as [|ev evs IH]; intros count; simpl.
  - f_equal. lia.
  - rewrite IH. destruct (is_completion ev); simpl; f_equal; lia.
Qed.

Section Stable.

Variable llm : nat -> request -> outcome string.
Variable json_loads : string -> outcome value.
Variable db_fault : nat -> option exn.
Variable self : generator.
Context {state : Type}.
Variable step : state -> event -> option state.
Variable s : state.

(** [s] is a state the automaton stays in on every routine event. *)
Hypothesis stable : forall ev, routine self ev = true -> step s ev = Some s.

Lemma stable_call {A : Type} (m : M A) (ev : event) :
  (forall w, trace (snd (m w)) = trace w ++ [ev]) ->
  routine self ev = true ->
  moves step m s (fun _ s' => s' = s).
Proof.
  intros Hm Hev. eapply moves_call; [exact Hm | now apply stable | reflexivity].
Qed.

Lemma stable_commit : moves step (conn_commit db_fault) s (fun _ s' => s' = s).
Proof.
  intros w. pose proof (commit_trace db_fault w) as Ht.
  destruct (fst (conn_commit db_fault w)).
  - exists [EvCommit true], s. simpl.
    rewrite (stable (EvCommit true)) by reflexivity. auto.
  - exists [EvCommit false], s. simpl.
    rewrite (stable (EvCommit false)) by reflexivity. auto.
Qed.

Lemma stable_connected {A : Type} (body : M A) :
  moves step body s (fun _ s' => s' = s) ->
  moves step (psycopg2_connect db_fault (db_params self) ;; conn_cursor ;;
              try_finally body (cur_close ;; conn_close)) s (fun _ s' => s' = s).
Proof.
  intros Hb.
  eapply moves_bind with (Q1 := fun _ s' => s' = s);
    [ eapply stable_call; [apply connect_trace | apply params_eqb_refl]
    | intros _ ? -> | intros ? ? ->; reflexivity ].
  eapply moves_bind with (Q1 := fun _ s' => s' = s);
    [ eapply stable_call; [apply cursor_trace | reflexivity]
    | intros _ ? -> | intros ? ? ->; reflexivity ].
  eapply moves_try_finally_close; [exact Hb|].
  intros r s1 ->. exists s. simpl.
  rewrite (stable EvCursorClose), (stable EvConnClose) by reflexivity. auto.
Qed.

Lemma create_tables_stable :
  moves step (create_tables db_fault self) s (fun _ s' => s' = s).
Proof.
  unfold create_tables. apply stable_connected.
  repeat (eapply moves_bind with (Q1 := fun _ s' => s' = s);
          [ eapply stable_call; [apply execute_trace | reflexivity]
          | intros ? ? -> | intros ? ? ->; reflexivity ]).
  apply stable_commit.
Qed.

Lemma insert_data_stable (user_data accounts_data transactions_data : value) :
  moves step (insert_data db_fault self user_data accounts_data transactions_data) s
        (fun _ s' => s' = s).
Proof.
  unfold insert_data. apply stable_connected.
  eapply moves_bind with (Q1 := fun _ s' => s' = s).
  - apply insert_rows_moves; intros; apply stable; reflexivity.
  - intros _ ? ->. apply stable_commit.
  - intros ? ? ->. reflexivity.
Qed.

Lemma generate_user_stable (num_users : Z) (i : nat) (s_done : state) :
  step s (EvPrint (completed_line i)) = Some s_done ->
  moves step (generate_user llm json_loads db_fault self num_users i) s
        (fun r s' => s' = match r with Ok _ => s_done | Raise _ => s end).
Proof.
  intros Hdone. unfold generate_user.
  eapply moves_bind with (Q1 := fun _ s' => s' = s);
    [ apply moves_emit with (s' := s); [apply stable; reflexivity | reflexivity]
    | intros _ ? -> | intros ? ? ->; reflexivity ].
  eapply moves_bind with (Q1 := fun _ s' => s' = s);
    [ | intros user_profile ? -> | intros ? ? ->; reflexivity ].
  { unfold generate_user_profile.
    eapply moves_bind with (Q1 := fun _ s' => s' = s);
      [ eapply stable_call; [apply messages_create_trace | reflexivity]
      | intros ? ? ->; apply moves_lift; reflexivity
      | intros ? ? ->; reflexivity ]. }
  eapply moves_bind with (Q1 := fun _ s' => s' = s);
    [ | intros accounts ? -> | intros ? ? ->; reflexivity ].
  { unfold generate_accounts.
    eapply moves_bind with (Q1 := fun _ s' => s' = s);
      [ apply moves_lift; reflexivity | intros ? ? -> | intros ? ? ->; reflexivity ].
    eapply moves_bind with (Q1 := fun _ s' => s' = s);
      [ eapply stable_call; [apply messages_create_trace | reflexivity]
      | intros ? ? ->; apply moves_lift; reflexivity
      | intros ? ? ->; reflexivity ]. }
  eapply moves_bind with (Q1 := fun _ s' => s' = s);
    [ apply moves_lift; reflexivity | intros items ? -> | intros ? ? ->; reflexivity ].
  eapply moves_bind with (Q1 := fun _ s' => s' = s);
    [ | intros all ? -> | intros ? ? ->; reflexivity ].
  { unfold collect_transactions.
    apply moves_for_acc with (I := fun s' => s' = s); auto.
    intros account acc ? ->.
    eapply moves_bind with (Q1 := fun _ s' => s' = s).
    - unfold generate_transactions.
      repeat (eapply moves_bind with (Q1 := fun _ s' => s' = s);
              [ first [ apply moves_lift; reflexivity
                      | eapply stable_call; [apply messages_create_trace | reflexivity] ]
              | intros ? ? -> | intros ? ? ->; reflexivity ]).
      apply moves_lift. reflexivity.
    - intros transactions ? ->.
      eapply moves_bind with (Q1 := fun _ s' => s' = s);
        [ apply moves_lift; reflexivity
        | intros ? ? ->; apply moves_ret; reflexivity
        | intros ? ? ->; reflexivity ].
    - intros ? ? ->. reflexivity. }
  eapply moves_bind with (Q1 := fun _ s' => s' = s);
    [ apply insert_data_stable | intros _ ? -> | intros ? ? ->; reflexivity ].
  apply moves_emit with (s' := s_done); [exact Hdone | reflexivity].
Qed.

End Stable.

Section Completed.

Variable llm : nat -> request -> outcome string.
Variable json_loads : string -> outcome value.
Variable db_fault : nat -> option exn.
Variable self : generator.
Variable num_users : Z.

Lemma tally_stable (count : nat) (ev : event) :
  routine self ev = true -> tally count ev = Some count.
Proof.
  unfold tally, routine. destruct ev; try reflexivity.
  intros H. apply negb_true_iff in H. now rewrite H.
Qed.

(** A turn that completes prints one completion line and commits one user
    row; a turn that raises prints none and commits nothing. *)
Lemma generate_user_tally (i : nat) (w : world) :
  exists added,
    trace (snd (generate_user llm json_loads db_fault self num_users i w))
    = trace w ++ added /\
    match fst (generate_user llm json_loads db_fault self num_users i w) with
    | Ok _ =>
        length (filter is_completion added) = 1%nat /\
        exists user_row accs ts,
          rows_added (tables w)
                     (tables (snd (generate_user llm json_loads db_fault self
                                                 num_users i w)))
                     [user_row] accs ts
    | Raise _ =>
        length (filter is_completion added) = 0%nat /\
        tables (snd (generate_user llm json_loads db_fault self num_users i w))
        = tables w
    end.
Proof.
  destruct (generate_user_stable llm json_loads db_fault self tally 0%nat
              (tally_stable 0) num_users i 1%nat eq_refl w)
    as (added & c & Ht & Hr & Hc).
  exists added. split; [exact Ht|].
  rewrite run_tally in Hr. simpl in Hr. inversion Hr as [Hlen]. clear Hr.
  destruct (generate_user llm json_loads db_fault self num_users i w)
    as [[[]|e] w'] eqn:H; simpl in *.
  - split; [congruence|].
    unfold generate_user in H.
    apply bind_ok in H as ([] & wa & Ha & H).
    apply (keeps_at _ _ _ _ (emit_keeps _)) in Ha.
    apply bind_ok in H as (user_profile & wb & Hb & H).
    apply (keeps_at _ _ _ _ (generate_user_profile_keeps _ _ _ _)) in Hb.
    apply bind_ok in H as (accounts & wc & Hcc & H).
    apply (keeps_at _ _ _ _ (generate_accounts_keeps _ _ _ _)) in Hcc.
    apply bind_ok in H as (items & wd & Hd & H). apply lift_ok in Hd as [_ ->].
    apply bind_ok in H as (all & we & He & H).
    apply (keeps_at _ _ _ _ (collect_transactions_keeps _ _ _ _ _)) in He.
    apply bind_ok in H as ([] & wf & Hf & H).
    apply (keeps_at _ _ _ _ (emit_keeps _)) in H.
    destruct (insert_data_ok db_fault _ _ _ _ _ _ Hf)
      as (uid & urow & details & accs & written & _ & _ & Hg & _).
    destruct Hg as (Hu & Hacc & Htx & _).
    exists urow, (map wa_row written), (flat_map wa_transactions written).
    unfold rows_added. rewrite H, Hu, Hacc, Htx, He, Hcc, Hb, Ha.
    repeat split; reflexivity.
  - split; [congruence|].
    exact (generate_user_atomic llm json_loads db_fault self num_users i _ _ _ H).
Qed.

Lemma users_loop_tally (count : nat) :
  forall (first : nat) (w : world),
    let result := for_each (seq first count)
                           (generate_user llm json_loads db_fault self num_users) w in
    exists added us accs ts,
      trace (snd result) = trace w ++ added /\
      length (filter is_completion added) = length us /\
      (length us <= count)%nat /\
      (fst result = Ok tt -> length us = count) /\
      rows_added (tables w) (tables (snd result)) us accs ts.
Proof.
  induction count as [|count IH]; intros first w; simpl.
  - exists [], [], [], []. unfold rows_added. simpl. rewrite !app_nil_r.
    repeat split; auto.
  - unfold bind.
    destruct (generate_user_tally first w) as (added1 & Ht1 & Hcase).
    destruct (generate_user llm json_loads db_fault self num_users first w)
      as [[[]|e] w1]; simpl in *.
    + destruct Hcase as (Hlen1 & urow & accs1 & ts1 & Hu1 & Ha1 & Htx1).
      destruct (IH (S first) w1) as (added2 & us & accs & ts & Ht2 & Hlen2 & Hle & Hok & Hrows).
      destruct Hrows as (Hu2 & Ha2 & Htx2).
      exists (added1 ++ added2), (urow :: us), (accs1 ++ accs), (ts1 ++ ts).
      rewrite Ht2, Ht1, <- app_assoc, filter_app, length_app, Hlen1, Hlen2.
      unfold rows_added. rewrite Hu2, Ha2, Htx2, Hu1, Ha1, Htx1, <- !app_assoc. simpl.
      repeat split; auto; try lia.
    + destruct Hcase as (Hlen1 & Htab).
      exists added1, [], [], []. unfold rows_added. rewrite Htab, !app_nil_r. simpl.
      repeat split; auto; try lia. discriminate.
Qed.

Lemma generate_all_data_tally (w : world) :
  let result := generate_all_data llm json_loads db_fault self num_users w in
  exists added us accs ts,
    trace (snd result) = trace w ++ added /\
    length (filter is_completion added) = length us /\
    (length us <= Z.to_nat num_users)%nat /\
    (fst result = Ok tt -> length us = Z.to_nat num_users) /\
    rows_added (tables w) (tables (snd result)) us accs ts.
Proof.
  unfold generate_all_data, bind.
  destruct (create_tables_stable db_fault self tally 0%nat (tally_stable 0) w)
    as (added0 & c & Ht0 & Hr0 & Hc).
  rewrite run_tally in Hr0. inversion Hr0 as [Hlen0]. simpl in Hc, Hlen0.
  destruct (create_tables_kept db_fault self w) as (_ & Hrows0).
  destruct (create_tables db_fault self w) as [[[]|e] w0]; simpl in *.
  - destruct (users_loop_tally (Z.to_nat num_users) 0 w0)
      as (added & us & accs & ts & Ht & Hlen & Hle & Hok & Hu & Ha & Htx).
    exists (added0 ++ added), us, accs, ts.
    rewrite Ht, Ht0, <- app_assoc, filter_app, length_app, Hlen.
    unfold rows_added. rewrite Hu, Ha, Htx, !Hrows0.
    repeat split; auto. lia.
  - exists added0, [], [], []. unfold rows_added. rewrite !Hrows0, !app_nil_r. simpl.
    repeat split; auto; try lia. discriminate.
Qed.

(** X8: after a run of [generate_all_data], however it ended, the users
    table has gained exactly as many rows as the run printed completion
    lines; the three tables have only gained rows, at their end; at most
    [num_users] users were added, and exactly [num_users] when the run
    returned normally.  So a run that fails while working on one user
    leaves the users completed before it committed, and nothing of the
    failed one. *)
Theorem generate_all_data_commits_completed_users (w : world) :
  let result := generate_all_data llm json_loads db_fault self num_users w in
  exists added us accs ts,
    trace (snd result) = trace w ++ added /\
    length (filter is_completion added) = length us /\
    (length us <= Z.to_nat num_users)%nat /\
    (fst result = Ok tt -> length us = Z.to_nat num_users) /\
    rows_added (tables w) (tables (snd result)) us accs ts.
Proof. apply generate_all_data_tally. Qed.

End Completed.

(** ** The use of the connection *)

Lemma orchestration_discipline (num_users : Z) (p p' : phase) (ev : event) :
  orchestration num_users p ev = Some p' ->
  connection_discipline (holds_connection p) ev = Some (holds_connection p').
Proof.
  destruct p as [|created c|k|k|k|k|k c|k|];
    destruct ev as [line|req|params| |sql a| |sql a|ack| |];
    simpl; try discriminate;
    repeat match goal with
           | |- match ?x with _ => _ end = _ -> _ => destruct x; simpl; try discriminate
           | |- (if ?x then _ else _) = _ -> _ => destruct x; simpl; try discriminate
           end;
    intros H; inversion H; reflexivity.
Qed.

Lemma orchestration_run_discipline (num_users : Z) (evs : list event) :
  forall p p',
    run (orchestration num_users) p evs = Some p' ->
    run connection_discipline (holds_connection p) evs = Some (holds_connection p').
Proof.
  induction evs as [|ev evs IH]; intros p p'; simpl.
  - intros H; inversion H. reflexivity.
  - destruct (orchestration num_users p ev) as [p1|] eqn:E; [|discriminate].
    rewrite (orchestration_discipline _ _ _ _ E). apply IH.
Qed.

(** X9: in every run of [generate_all_data], whatever fails, the calls
    respect the connection discipline: the program never opens a
    connection while it holds one, never sends a statement, a commit or a
    cursor call without one, and never calls the remote model or prints
    progress while one is open. *)
Theorem generate_all_data_connection_discipline
  (llm : nat -> request -> outcome string) (json_loads : string -> outcome value)
  (db_fault : nat -> option exn) (self : generator) (num_users : Z) (w : world) :
  exists added held,
    trace (snd (generate_all_data llm json_loads db_fault self num_users w))
    = trace w ++ added /\
    run connection_discipline false added = Some held.
Proof.
  destruct (generate_all_data_moves llm json_loads db_fault self num_users w)
    as (added & p & Ht & Hr & _).
  exists added, (holds_connection p). split; [exact Ht|].
  exact (orchestration_run_discipline _ _ _ _ Hr).
Qed.

Lemma releases_bind {A B : Type} (m : M A) (k : A -> M B) :
  releases m -> (forall a, releases (k a)) -> releases (bind m k).
Proof.
  intros Hm Hk w Hw. unfold bind. specialize (Hm w Hw).
  destruct (m w) as [[a|e] w1]; simpl in *; [now apply Hk | exact Hm].
Qed.

Lemma releases_unchanged {A : Type} (m : M A) :
  (forall w, session (snd (m w)) = session w) -> releases m.
Proof. intros H w Hw. now rewrite H. Qed.

Lemma releases_for_each {A : Type} (body : A -> M unit) (l : list A) :
  (forall a, releases (body a)) -> releases (for_each l body).
Proof.
  intros Hb. induction l as [|a l IH]; simpl.
  - intros w Hw. exact Hw.
  - apply releases_bind; auto.
Qed.

Lemma releases_for_acc {A S : Type} (body : A -> S -> M S) (l : list A) :
  (forall a s, releases (body a s)) -> forall s, releases (for_acc l body s).
Proof.
  intros Hb. induction l as [|a l IH]; intros s; simpl.
  - intros w Hw. exact Hw.
  - apply releases_bind; auto.
Qed.

Section Release.

Variable llm : nat -> request -> outcome string.
Variable json_loads : string -> outcome value.
Variable db_fault : nat -> option exn.
Variable self : generator.

Lemma connected_releases {A : Type} (body : M A) :
  releases (psycopg2_connect db_fault (db_params self) ;; conn_cursor ;;
            try_finally body (cur_close ;; conn_close)).
Proof.
  intros w Hw. destruct (db_fault (clock w)) as [e|] eqn:Hf.
  - rewrite (connected_fail _ _ _ _ _ Hf). exact Hw.
  - rewrite (connected_run _ _ _ _ Hf). reflexivity.
Qed.

Lemma generate_user_releases (num_users : Z) (i : nat) :
  releases (generate_user llm json_loads db_fault self num_users i).
Proof.
  assert (Hq : forall A (m : M A),
             (forall w, session (snd (m w)) = session w) -> releases m)
    by (intros A m; apply releases_unchanged).
  unfold generate_user.
  apply releases_bind; [apply Hq; reflexivity | intros _].
  apply releases_bind; [|intros user_profile].
  { unfold generate_user_profile.
    apply releases_bind; [apply Hq; reflexivity | intros text].
    apply Hq; reflexivity. }
  apply releases_bind; [|intros accounts].
  { unfold generate_accounts.
    apply releases_bind; [apply Hq; reflexivity | intros income].
    apply releases_bind; [apply Hq; reflexivity | intros text].
    apply Hq; reflexivity. }
  apply releases_bind; [apply Hq; reflexivity | intros items].
  apply releases_bind; [|intros all].
  { unfold collect_transactions. apply releases_for_acc. intros account acc.
    apply releases_bind; [|intros transactions].
    - unfold generate_transactions.
      apply releases_bind; [apply Hq; reflexivity | intros kind].
      apply releases_bind; [apply Hq; reflexivity | intros balance].
      apply releases_bind; [apply Hq; reflexivity | intros income].
      apply releases_bind; [apply Hq; reflexivity | intros text].
      apply Hq; reflexivity.
    - apply releases_bind; [apply Hq; reflexivity | intros items'].
      apply Hq; reflexivity. }
  apply releases_bind; [|intros _].
  { unfold insert_data. apply connected_releases. }
  apply Hq; reflexivity.
Qed.

(** X10: the program leaves no connection behind: started with none open,
    [generate_all_data] ends with none open, whether it returns or raises
    and wherever it raises. *)
Theorem generate_all_data_releases_connection (num_users : Z) (w : world) :
  session w = None ->
  session (snd (generate_all_data llm json_loads db_fault self num_users w)) = None.
Proof.
  revert w.
  change (releases (generate_all_data llm json_loads db_fault self num_users)).
  unfold generate_all_data. apply releases_bind.
  - unfold create_tables. apply connected_releases.
  - intros _. apply releases_for_each. intros i. apply generate_user_releases.
Qed.

Lemma emitted_clock (ev : event) (w : world) :
  clock {| tables := tables w; sequences := sequences w; session := session w;
           trace := trace w ++ [ev] |} = S (clock w).
Proof. unfold clock. simpl. rewrite length_app. simpl. lia. Qed.

(** X11: when the first account the model returned has no usable
    account_type (it lacks the key, or the reply was an object rather than
    a list, whose keys the loop then takes for accounts), the turn raises
    that error right after the accounts request: no transactions request
    is sent and the database is not contacted. *)
Theorem generate_user_malformed_account (num_users : Z) (i : nat) (w : world)
  (text1 text2 : string) (user_profile income accounts first : value)
  (rest : list value) (e : exn) :
  llm (clock w + 1) profile_request = Ok text1 ->
  json_loads text1 = Ok user_profile ->
  subscript user_profile "income_bracket" = Ok income ->
  llm (clock w + 2) (accounts_request income) = Ok text2 ->
  json_loads text2 = Ok accounts ->
  iterate accounts = Ok (first :: rest) ->
  subscript first "account_type" = Raise e ->
  generate_user llm json_loads db_fault self num_users i w =
  (Raise e,
   {| tables := tables w; sequences := sequences w; session := session w;
      trace := trace w ++ [EvPrint (started_line num_users i);
                           EvMessagesCreate profile_request;
                           EvMessagesCreate (accounts_request income)] |}).
Proof.
  intros H1 H2 H3 H4 H5 H6 H7.
  unfold generate_user, generate_user_profile, generate_accounts, collect_transactions,
    generate_transactions, print, emit, bind, lift.
  rewrite !messages_create_run. simpl.
  rewrite emitted_clock. replace (S (clock w)) with (clock w + 1)%nat by lia.
  rewrite H1, H2, H3. simpl.
  unfold clock at 1. simpl. rewrite !length_app. simpl.
  replace (length (trace w) + 1 + 1)%nat with (clock w + 2)%nat by (unfold clock; lia).
  rewrite H4, H5, H6. simpl. rewrite H7.
  rewrite <- !app_assoc. reflexivity.
Qed.

End Release.

Lemma generate_all_data_releases_connection_witness :
  session (snd (generate_all_data stub_llm stub_loads flaky (init []) 2 blank)) = None.
Proof.
  apply (generate_all_data_releases_connection stub_llm stub_loads flaky (init []) 2
           blank).
  reflexivity.
Defined.

Lemma generate_user_malformed_account_witness :
  generate_user wrapping_llm wrapping_loads no_fault (init []) 1 0 ready =
  (Raise TypeError,
   {| tables := tables ready; sequences := sequences ready; session := session ready;
      trace := trace ready ++ [EvPrint (started_line 1 0);
                               EvMessagesCreate profile_request;
                               EvMessagesCreate (accounts_request (PyStr "75k-100k"))] |}).
Proof.
  apply (generate_user_malformed_account wrapping_llm wrapping_loads no_fault (init [])
           1 0 ready (dumps jane) (dumps wrapped_accounts) jane (PyStr "75k-100k")
           wrapped_accounts (PyStr "accounts") [] TypeError);
    vm_compute; reflexivity.
Defined.

(** ** Configuration reaches every connection *)

Section Configured.

Variable llm : nat -> request -> outcome string.
Variable json_loads : string -> outcome value.
Variable db_fault : nat -> option exn.
Variable self : generator.

Lemma configured_stable (ev : event) :
  routine self ev = true -> configured (db_params self) tt ev = Some tt.
Proof.
  unfold configured, routine. destruct ev; try reflexivity. now intros ->.
Qed.

Lemma configured_run (params : list (string * string)) (evs : list event) (u u' : unit) :
  run (configured params) u evs = Some u' ->
  Forall (fun p => p = params) (connections evs).
Proof.
  revert u. induction evs as [|ev evs IH]; intros u; simpl; [constructor|].
  destruct ev; simpl; try (now apply IH).
  destruct (params_eqb params0 params) eqn:E; [|discriminate].
  intros H. constructor; [now apply params_eqb_eq | now apply (IH tt)].
Qed.

Lemma generate_all_data_configured (num_users : Z) :
  moves (configured (db_params self))
        (generate_all_data llm json_loads db_fault self num_users) tt
        (fun _ _ => True).
Proof.
  unfold generate_all_data.
  eapply moves_bind with (Q1 := fun _ u => u = tt).
  - apply create_tables_stable. exact configured_stable.
  - intros _ ? ->. apply moves_for_each with (I := fun u => u = tt); auto.
    intros i ? ->. eapply moves_weaken.
    + apply (generate_user_stable llm json_loads db_fault self _ tt configured_stable
               num_users i tt eq_refl).
    + intros [[]|e] [] _; reflexivity.
  - intros e u _. exact I.
Qed.

(** X12: every connection that [generate_all_data] opens, for the schema
    and for each user, is made with the parameters the generator resolved
    at construction. *)
Theorem generate_all_data_connects_as_configured (num_users : Z) (w : world) :
  exists added,
    trace (snd (generate_all_data llm json_loads db_fault self num_users w))
    = trace w ++ added /\
    Forall (fun p => p = db_params self) (connections added).
Proof.
  destruct (generate_all_data_configured num_users w) as (added & u & Ht & Hr & _).
  exists added. split; [exact Ht|]. exact (configured_run _ _ _ _ Hr).
Qed.

End Configured.

(** X13: the script as a whole: every connection of a run of [main] is
    made with dbname, user, password, host and port taken from DB_NAME,
    DB_USER, DB_PASSWORD, DB_HOST and DB_PORT of the environment or their
    defaults; the tables only gain rows; and a run that ends normally has
    added exactly 100 users and reported each of them. *)
Theorem main_run (llm : nat -> request -> outcome string)
  (json_loads : string -> outcome value) (db_fault : nat -> option exn)
  (environ : list (string * string)) (w : world) :
  let result := main llm json_loads db_fault environ w in
  exists added us accs ts,
    trace (snd result) = trace w ++ added /\
    Forall (fun p =>
              p = [("dbname", getenv environ "DB_NAME" "financial_data");
                   ("user", getenv environ "DB_USER" "postgres");
                   ("password", getenv environ "DB_PASSWORD" "postgres");
                   ("host", getenv environ "DB_HOST" "localhost");
                   ("port", getenv environ "DB_PORT" "5432")])
           (connections added) /\
    rows_added (tables w) (tables (snd result)) us accs ts /\
    length (filter is_completion added) = length us /\
    (fst result = Ok tt -> length us = 100%nat).
Proof.
  unfold main.
  destruct (generate_all_data_tally llm json_loads db_fault (init environ) 100 w)
    as (added & us & accs & ts & Ht & Hlen & _ & Hok & Hrows).
  destruct (generate_all_data_configured llm json_loads db_fault (init environ) 100 w)
    as (added' & u & Ht' & Hr & _).
  assert (added' = added) by (rewrite Ht in Ht'; exact (eq_sym (app_inv_head _ _ _ Ht'))).
  subst added'.
  exists added, us, accs, ts. split; [exact Ht|]. split; [|split; [exact Hrows|split]].
  - exact (configured_run _ _ _ _ Hr).
  - exact Hlen.
  - intros H. exact (Hok H).
Qed.

(** ** A user without accounts *)

Section Accountless.

Variable llm : nat -> request -> outcome string.
Variable json_loads : string -> outcome value.
Variable db_fault : nat -> option exn.
Variable self : generator.

(** X14: when the accounts reply holds no element (an empty list, but
    also an empty object or an empty string), the turn sends no
    transactions request and goes on to persist the user alone:
    [insert_data] is called with the profile, the reply and an empty
    transaction list, and the completion line follows. *)
Theorem generate_user_without_accounts (num_users : Z) (i : nat) (w : world)
  (text1 text2 : string) (user_profile income accounts : value) :
  llm (clock w + 1) profile_request = Ok text1 ->
  json_loads text1 = Ok user_profile ->
  subscript user_profile "income_bracket" = Ok income ->
  llm (clock w + 2) (accounts_request income) = Ok text2 ->
  json_loads text2 = Ok accounts ->
  iterate accounts = Ok [] ->
  generate_user llm json_loads db_fault self num_users i w =
  (insert_data db_fault self user_profile accounts (PyList []) ;;
   print (completed_line i)) (accounts_requested num_users i income w).
Proof.
  intros H1 H2 H3 H4 H5 H6.
  unfold generate_user, generate_user_profile, generate_accounts, collect_transactions,
    accounts_requested.
  unfold print at 1. unfold emit at 1. unfold bind at 1.
  unfold bind at 1. unfold bind at 1. rewrite messages_create_run.
  rewrite emitted_clock. replace (S (clock w)) with (clock w + 1)%nat by lia.
  rewrite H1. unfold lift at 1. rewrite H2.
  unfold bind at 1. unfold bind at 1. unfold lift at 1. rewrite H3.
  unfold bind at 1. rewrite messages_create_run.
  unfold clock at 1. simpl trace. rewrite !length_app. simpl length.
  replace (length (trace w) + 1 + 1)%nat with (clock w + 2)%nat by (unfold clock; lia).
  rewrite H4. unfold lift at 1. rewrite H5.
  unfold bind at 1. unfold lift at 1. rewrite H6.
  unfold bind at 1. simpl for_acc. unfold ret at 1.
  simpl. rewrite <- !app_assoc. reflexivity.
Qed.

End Accountless.

Lemma generate_user_without_accounts_witness :
  generate_user accountless_llm stub_loads no_fault (init []) 1 0 ready =
  (insert_data no_fault (init []) jane (PyList []) (PyList []) ;;
   print (completed_line 0)) (accounts_requested 1 0 (PyStr "75k-100k") ready).
Proof.
  apply (generate_user_without_accounts accountless_llm stub_loads no_fault (init [])
           1 0 ready (dumps jane) (dumps (PyList [])) jane (PyStr "75k-100k")
           (PyList []));
    vm_compute; reflexivity.
Defined.
